(** * Construction of spatial reference systems from WKT parse trees

    A shallow embedding of [sql/gis/srs/srs.cc]: the parameter extractor
    [set_parameters], the builders [Geographic_srs::init] and
    [Projected_srs::init], the catalogue of projection variants, the
    factory [new_projection], [create_projected_srs] and the orchestrator
    [gis::srs::parse_wkt], followed by the properties of the specification
    that concern them. *)

From Stdlib Require Import ZArith String Ascii List Bool Lia SpecFloat.
From stdpp Require Import base decidable option list strings pretty functions gmap.

Local Open Scope string_scope.
Local Open Scope Z_scope.

(** ** Doubles

    A C++ [double] is an IEEE 754 binary64 value.  The code only copies
    doubles and tests them with [std::isnan]; [spec_float] keeps zeros,
    infinities, the not-a-number value and the finite values (sign,
    mantissa, exponent) apart, which is all that is needed. *)

Definition double : Type := spec_float.

Definition NAN : double := S754_nan.

Definition isnan (x : double) : bool :=
  match x with
  | S754_nan => true
  | _ => false
  end.

(** The literals used below: [0.0], [9.0], [500000.0] and the binary64
    value nearest to [0.9996], which is [0x1.ffcb923a29c78p-1]. *)
Definition d_zero : double := S754_zero false.
Definition d_9 : double := S754_finite false 9 0.
Definition d_500000 : double := S754_finite false 500000 0.
Definition d_0_9996 : double := S754_finite false 0x1ffcb923a29c78 (-53).

(** ** C strings and [my_strcasecmp]

    A [std::string] is a [string]; [c_str()] hands out its bytes followed
    by a terminating NUL, so that a C routine reads the string up to its
    first NUL byte. *)

Definition NUL : ascii := Ascii.zero.

(** The byte a [const char *] points at: the first byte of the rest of the
    string, or the terminator. *)
Definition deref (s : string) : ascii :=
  match s with
  | EmptyString => NUL
  | String c _ => c
  end.

(** The pointer advanced by one byte. *)
Definition advance (s : string) : string :=
  match s with
  | EmptyString => EmptyString
  | String _ s' => s'
  end.

(** Modelled from the spec: the [to_upper] table of [my_charset_latin1]
    (m_ctype.h and the character-set tables are not part of the sources at
    hand).  The spec only says that comparison is case-insensitive; the
    table folds [a-z] to [A-Z] and the accented lower-case letters of
    Latin-1 to their upper-case forms, and fixes every other byte. *)
Definition to_upper (c : ascii) : N :=
  let n := N_of_ascii c in
  if ((97 <=? n) && (n <=? 122))%N then (n - 32)%N
  else if ((224 <=? n) && (n <=? 254) && negb (n =? 247))%N then (n - 32)%N
  else n.

(** Modelled from the spec: [my_strcasecmp(&my_charset_latin1, s, t)], the
    case-insensitive comparison of two NUL-terminated strings; the result
    is [0] exactly when they are equal up to case.
<<
    while (map[(uchar) *s] == map[(uchar) *t++])
      if (!*s++) return 0;
    return ((int) map[(uchar) s[0]] - (int) map[(uchar) t[-1]]);
>> *)
Fixpoint my_strcasecmp (s t : string) : Z :=
  let cs := deref s in
  let ct := deref t in
  if (to_upper cs =? to_upper ct)%N then
    match s with
    | EmptyString => 0
    | String c s' =>
        if Ascii.eqb c NUL then 0 else my_strcasecmp s' (advance t)
    end
  else Z.of_N (to_upper cs) - Z.of_N (to_upper ct).

(** [!my_strcasecmp(&my_charset_latin1, s, t)] *)
Definition strcaseeq (s t : string) : bool := my_strcasecmp s t =? 0.

(** ** [std::to_string] and [std::stoi] *)

(** [std::to_string(int)]: the decimal digits, with a leading minus sign
    for a negative number. *)
Definition to_string (n : Z) : string := pretty n.

Definition INT_MIN : Z := - 2 ^ 31.
Definition INT_MAX : Z := 2 ^ 31 - 1.

Definition isspace (c : ascii) : bool :=
  let n := N_of_ascii c in
  ((n =? 32) || ((9 <=? n) && (n <=? 13)))%N.

Definition digit_value (c : ascii) : option Z :=
  let n := N_of_ascii c in
  if ((48 <=? n) && (n <=? 57))%N then Some (Z.of_N n - 48) else None.

Fixpoint skip_spaces (s : string) : string :=
  match s with
  | String c s' => if isspace c then skip_spaces s' else s
  | EmptyString => EmptyString
  end.

(** The digits at the front of [s], accumulated into [acc]; [seen] tells
    whether a digit has been read already.  [None] when there is none. *)
Fixpoint read_digits (s : string) (acc : Z) (seen : bool) : option Z :=
  match s with
  | String c s' =>
      match digit_value c with
      | Some d => read_digits s' (10 * acc + d) true
      | None => if seen then Some acc else None
      end
  | EmptyString => if seen then Some acc else None
  end.

(** [std::stoi(str)] in base 10: leading white space is skipped, an
    optional sign is read, then as many digits as there are; what follows
    the digits is ignored.  [None] stands for the two exceptions of the
    function: [std::invalid_argument] when no digit can be read and
    [std::out_of_range] when the number does not fit an [int]. *)
Definition stoi (str : string) : option Z :=
  let s := skip_spaces str in
  let '(neg, s) :=
    match s with
    | String "-" s' => (true, s')
    | String "+" s' => (false, s')
    | _ => (false, s)
    end in
  match read_digits s 0 false with
  | Some n =>
      let v := if neg then - n else n in
      if (INT_MIN <=? v) && (v <=? INT_MAX) then Some v else None
  | None => None
  end.

(** ** Diagnostics

    [my_error] appends an error to the diagnostics of the session.  Only
    the two errors raised by this translation unit are needed. *)

Definition srid_t : Type := Z.

Inductive Diagnostic : Type :=
| ER_SRS_PARSE_ERROR (srid : srid_t)
| ER_SRS_PROJ_PARAMETER_MISSING (srid : srid_t) (name : string) (epsg_code : Z).

(** ** The parse tree

    Modelled from the spec: the structures of [wkt_parser.h], which is not
    among the sources at hand.  The fields are those read by srs.cc, under
    the access paths used there ([g->datum.spheroid.semi_major_axis],
    [i->authority.name], ...); the spec lists the same tree in its
    section on external interfaces. *)

(** Modelled from the spec: [gis::srs::Axis_direction] of srs.h. *)
Inductive Axis_direction : Type :=
| UNSPECIFIED | NORTH | SOUTH | EAST | WEST | OTHER.

#[global] Instance Axis_direction_eq_dec : EqDecision Axis_direction.
Proof. solve_decision. Defined.

Module wkt_parser.

Module Authority.
Record t : Type := mk { name : string; code : string }.
End Authority.

Module Spheroid.
Record t : Type := mk { semi_major_axis : double; inverse_flattening : double }.
End Spheroid.

Module Towgs84.
Record t : Type := mk {
  valid : bool;
  dx : double; dy : double; dz : double;
  ex : double; ey : double; ez : double;
  ppm : double }.
End Towgs84.

Module Datum.
Record t : Type := mk { spheroid : Spheroid.t; towgs84 : Towgs84.t }.
End Datum.

Module Prime_meridian.
Record t : Type := mk { longitude : double }.
End Prime_meridian.

Module Unit.
Record t : Type := mk { conversion_factor : double }.
End Unit.

Module Axis.
Record t : Type := mk { direction : Axis_direction }.
End Axis.

Module Twin_axes.
Record t : Type := mk { valid : bool; x : Axis.t; y : Axis.t }.
End Twin_axes.

Module Geographic_cs.
Record t : Type := mk {
  datum : Datum.t;
  prime_meridian : Prime_meridian.t;
  angular_unit : Unit.t;
  axes : Twin_axes.t }.
End Geographic_cs.

Module Projection.
Record t : Type := mk { authority : Authority.t }.
End Projection.

Module Projection_parameter.
Record t : Type := mk {
  name : string;
  value : double;
  authority : Authority.t }.
End Projection_parameter.

Module Projected_cs.
Record t : Type := mk {
  geographic_cs : Geographic_cs.t;
  projection : Projection.t;
  parameters : list Projection_parameter.t;
  linear_unit : Unit.t;
  axes : Twin_axes.t }.
End Projected_cs.

(** [boost::variant<Projected_cs, Geographic_cs>] *)
Inductive Coordinate_system : Type :=
| Projected (p : Projected_cs.t)
| Geographic (g : Geographic_cs.t).

End wkt_parser.

Import wkt_parser.

(** ** The parameter extractor *)

(** A [std::map<int, std::string>] filled by a sequence of assignments
    [m[k]= v]. *)
Definition assign_all (l : list (Z * string)) : gmap Z string :=
  foldl (λ m kv, <[kv.1 := kv.2]> m) ∅ l.

(** Reading [m[k]]: [operator[]] gives the empty string for a key that
    is not in the map. *)
Definition at_key (m : gmap Z string) (k : Z) : string := default "" (m !! k).

Definition param_names : gmap Z string :=
  assign_all
    [ (1026, "c1"); (1027, "c2"); (1028, "c3"); (1029, "c4"); (1030, "c5");
      (1031, "c6"); (1032, "c7"); (1033, "c8"); (1034, "c9"); (1035, "c10");
      (1036, "azimuth");
      (1038, "ellipsoid_scale_factor");
      (1039, "projection_plane_height_at_origin");
      (8617, "evaluation_point_ordinate_1");
      (8618, "evaluation_point_ordinate_2");
      (8801, "latitude_of_origin");
      (8802, "central_meridian");
      (8805, "scale_factor");
      (8806, "false_easting");
      (8807, "false_northing");
      (8811, "latitude_of_center");
      (8812, "longitude_of_center");
      (8813, "azimuth");
      (8814, "rectified_grid_angle");
      (8815, "scale_factor");
      (8816, "false_easting");
      (8817, "false_northing");
      (8818, "pseudo_standard_parallel_1");
      (8819, "scale_factor");
      (8821, "latitude_of_origin");
      (8822, "central_meridian");
      (8823, "standard_parallel_1");
      (8824, "standard_parallel_2");
      (8826, "false_easting");
      (8827, "false_northing");
      (8830, "initial_longitude");
      (8831, "zone_width");
      (8832, "standard_parallel");
      (8833, "longitude_of_center") ].

Definition param_aliases : gmap Z string :=
  assign_all
    [ (8823, "standard_parallel1");
      (8824, "standard_parallel2") ].

Section extractor.

  (** The destinations [double *] of the descriptors point at members of
      the object under construction.  [Slot] is the type of these
      locations and a [store] gives the double held at each of them: two
      descriptors with the same location share the double, as two equal
      pointers do. *)
Context {Slot : Type} `{EqDecision Slot}.

Definition store : Type := Slot → double.

(** [std::vector<std::pair<int, double *>>] *)
Definition Params : Type := list (Z * Slot).

(** The body of the inner loop, for the parsed parameter [i] and the
    descriptor [d = params->at(j)]. *)
Definition assign (i : Projection_parameter.t) (st : store) (d : Z * Slot) : store :=
  if strcaseeq "EPSG" (Authority.name (Projection_parameter.authority i)) then
    if strcaseeq (to_string d.1) (Authority.code (Projection_parameter.authority i))
    then <[d.2 := Projection_parameter.value i]> st
    else st
  else if strcaseeq (at_key param_names d.1) (Projection_parameter.name i)
  then <[d.2 := Projection_parameter.value i]> st
  else if strcaseeq (at_key param_aliases d.1) (Projection_parameter.name i)
  then <[d.2 := Projection_parameter.value i]> st
  else st.

(** The two nested loops: every parsed parameter, in the order of the
    parse tree, against every descriptor, in the order of the vector. *)
Definition scan (proj : Projected_cs.t) (params : Params) (st : store) : store :=
  foldl (λ st i, foldl (assign i) st params) st (Projected_cs.parameters proj).

(** The second loop: the first descriptor whose double is still NaN
    raises the error and ends the function. *)
Fixpoint check (srid : srid_t) (params : Params) (st : store)
  : bool * list Diagnostic :=
  match params with
  | [] => (false, [])
  | d :: rest =>
      if isnan (st d.2) then
        let epsg_code := d.1 in
        (true, [ER_SRS_PROJ_PARAMETER_MISSING srid (at_key param_names epsg_code) epsg_code])
      else check srid rest st
  end.

(** [set_parameters]: the failure flag, the doubles after the call and
    the errors raised. *)
Definition set_parameters (srid : srid_t) (proj : Projected_cs.t)
    (params : Params) (st : store) : bool * store * list Diagnostic :=
  let st' := scan proj params st in
  let '(res, errs) := check srid params st' in
  (res, st', errs).

End extractor.

(** ** The SRS objects

    Modelled from the spec: the class declarations of srs.h, which is not
    among the sources at hand.  The members are those srs.cc assigns; the
    constructors seed every double with NaN and every axis direction with
    [UNSPECIFIED] (the pre-seed rule of the spec's data model). *)

Module Geographic_srs.

Record t : Type := mk {
  m_semi_major_axis : double;
  m_inverse_flattening : double;
  m_towgs84 : nat → double;         (* double m_towgs84[7] *)
  m_prime_meridian : double;
  m_angular_unit : double;
  m_axes : nat → Axis_direction     (* Axis_direction m_axes[2] *)
}.

Definition set_m_semi_major_axis (v : double) (o : t) : t :=
  mk v (m_inverse_flattening o) (m_towgs84 o) (m_prime_meridian o)
     (m_angular_unit o) (m_axes o).
Definition set_m_inverse_flattening (v : double) (o : t) : t :=
  mk (m_semi_major_axis o) v (m_towgs84 o) (m_prime_meridian o)
     (m_angular_unit o) (m_axes o).
Definition set_m_towgs84 (i : nat) (v : double) (o : t) : t :=
  mk (m_semi_major_axis o) (m_inverse_flattening o) (<[i := v]> (m_towgs84 o))
     (m_prime_meridian o) (m_angular_unit o) (m_axes o).
Definition set_m_prime_meridian (v : double) (o : t) : t :=
  mk (m_semi_major_axis o) (m_inverse_flattening o) (m_towgs84 o) v
     (m_angular_unit o) (m_axes o).
Definition set_m_angular_unit (v : double) (o : t) : t :=
  mk (m_semi_major_axis o) (m_inverse_flattening o) (m_towgs84 o)
     (m_prime_meridian o) v (m_axes o).
Definition set_m_axes (i : nat) (v : Axis_direction) (o : t) : t :=
  mk (m_semi_major_axis o) (m_inverse_flattening o) (m_towgs84 o)
     (m_prime_meridian o) (m_angular_unit o) (<[i := v]> (m_axes o)).

(** Modelled from the spec: the constructor [Geographic_srs()]. *)
Definition new : t := mk NAN NAN (λ _, NAN) NAN NAN (λ _, UNSPECIFIED).

End Geographic_srs.

(** The concrete classes derived from [Projected_srs]. *)
Inductive Projection_kind : Type :=
| Unknown_projected_srs
| Popular_visualisation_pseudo_mercator_srs
| Lambert_azimuthal_equal_area_spherical_srs
| Equidistant_cylindrical_srs
| Equidistant_cylindrical_spherical_srs
| Krovak_north_orientated_srs
| Krovak_modified_srs
| Krovak_modified_north_orientated_srs
| Lambert_conic_conformal_2sp_michigan_srs
| Colombia_urban_srs
| Lambert_conic_conformal_1sp_srs
| Lambert_conic_conformal_2sp_srs
| Lambert_conic_conformal_2sp_belgium_srs
| Mercator_variant_a_srs
| Mercator_variant_b_srs
| Cassini_soldner_srs
| Transverse_mercator_srs
| Transverse_mercator_south_orientated_srs
| Oblique_stereographic_srs
| Polar_stereographic_variant_a_srs
| New_zealand_map_grid_srs
| Hotine_oblique_mercator_variant_a_srs
| Laborde_oblique_mercator_srs
| Hotine_oblique_mercator_variant_b_srs
| Tunisia_mining_grid_srs
| Lambert_conic_near_conformal_srs
| American_polyconic_srs
| Krovak_srs
| Lambert_azimuthal_equal_area_srs
| Albers_equal_area_srs
| Transverse_mercator_zoned_grid_system_srs
| Lambert_conic_conformal_west_orientated_srs
| Bonne_south_orientated_srs
| Polar_stereographic_variant_b_srs
| Polar_stereographic_variant_c_srs
| Guam_projection_srs
| Modified_azimuthal_equidistant_srs
| Hyperbolic_cassini_soldner_srs
| Lambert_cylindrical_equal_area_spherical_srs
| Lambert_cylindrical_equal_area_srs.

#[global] Instance Projection_kind_eq_dec : EqDecision Projection_kind.
Proof. solve_decision. Defined.

(** The double members of the derived classes that srs.cc takes the
    address of.  A member of the object under construction is told from
    the others by its name, which serves as its location. *)
Inductive Member : Type :=
| m_latitude_of_origin
| m_longitude_of_origin
| m_false_easting
| m_false_northing
| m_standard_parallel_1
| m_latitude_of_center
| m_longitude_of_center
| m_azimuth
| m_pseudo_standard_parallel_1
| m_scale_factor
| m_evaluation_point_ordinate_1
| m_evaluation_point_ordinate_2
| m_c1
| m_c2
| m_c3
| m_c4
| m_c5
| m_c6
| m_c7
| m_c8
| m_c9
| m_c10
| m_standard_parallel_2
| m_ellipsoid_scale_factor
| m_projection_plane_height_at_origin
| m_rectified_grid_angle
| m_initial_longitude
| m_zone_width
| m_standard_parallel.

#[global] Instance Member_eq_dec : EqDecision Member.
Proof. solve_decision. Defined.

Module Projected_srs.

Record t : Type := mk {
  kind : Projection_kind;             (* the dynamic type of the object *)
  m_geographic_srs : Geographic_srs.t;
  m_linear_unit : double;
  m_axes : nat → Axis_direction;      (* Axis_direction m_axes[2] *)
  members : Member → double           (* the members of the derived class *)
}.

Definition set_m_geographic_srs (v : Geographic_srs.t) (o : t) : t :=
  mk (kind o) v (m_linear_unit o) (m_axes o) (members o).
Definition set_m_linear_unit (v : double) (o : t) : t :=
  mk (kind o) (m_geographic_srs o) v (m_axes o) (members o).
Definition set_m_axes (i : nat) (v : Axis_direction) (o : t) : t :=
  mk (kind o) (m_geographic_srs o) (m_linear_unit o) (<[i := v]> (m_axes o))
     (members o).
Definition set_members (v : Member → double) (o : t) : t :=
  mk (kind o) (m_geographic_srs o) (m_linear_unit o) (m_axes o) v.

(** Modelled from the spec: the constructors of the derived classes. *)
Definition new (k : Projection_kind) : t :=
  mk k Geographic_srs.new NAN (λ _, UNSPECIFIED) (λ _, NAN).

End Projected_srs.

(** [gis::srs::Spatial_reference_system], the base of both. *)
Inductive Spatial_reference_system : Type :=
| Geographic_object (g : Geographic_srs.t)
| Projected_object (p : Projected_srs.t).

(** ** The builders *)

(** What a builder leaves behind: its failure flag, the object it has
    worked on, the errors it has raised and whether every [DBUG_ASSERT] it
    has met held. *)
Record Built (A : Type) : Type := mkBuilt {
  failed : bool;
  built : A;
  raised : list Diagnostic;
  asserted : bool
}.
Arguments mkBuilt {A} _ _ _ _.
Arguments failed {A} _.
Arguments built {A} _.
Arguments raised {A} _.
Arguments asserted {A} _.

(** [DBUG_ASSERT(c)], met when the assertions so far amount to [ok]. *)
Definition DBUG_ASSERT (ok c : bool) : bool := ok && c.

Definition Axis_direction_neq (a b : Axis_direction) : bool :=
  negb (bool_decide (a = b)).

(** [Geographic_srs::init] *)
Definition Geographic_srs_init (this : Geographic_srs.t) (srid : srid_t)
    (g : Geographic_cs.t) : Built Geographic_srs.t :=
  let datum := Geographic_cs.datum g in
  let this := Geographic_srs.set_m_semi_major_axis
                (Spheroid.semi_major_axis (Datum.spheroid datum)) this in
  let this := Geographic_srs.set_m_inverse_flattening
                (Spheroid.inverse_flattening (Datum.spheroid datum)) this in
  let ok := DBUG_ASSERT true (negb (isnan (Geographic_srs.m_semi_major_axis this))) in
  let ok := DBUG_ASSERT ok (negb (isnan (Geographic_srs.m_inverse_flattening this))) in
  let '(this, ok) :=
    if Towgs84.valid (Datum.towgs84 datum) then
      let this := Geographic_srs.set_m_towgs84 0 (Towgs84.dx (Datum.towgs84 datum)) this in
      let this := Geographic_srs.set_m_towgs84 1 (Towgs84.dy (Datum.towgs84 datum)) this in
      let this := Geographic_srs.set_m_towgs84 2 (Towgs84.dz (Datum.towgs84 datum)) this in
      let this := Geographic_srs.set_m_towgs84 3 (Towgs84.ex (Datum.towgs84 datum)) this in
      let this := Geographic_srs.set_m_towgs84 4 (Towgs84.ey (Datum.towgs84 datum)) this in
      let this := Geographic_srs.set_m_towgs84 5 (Towgs84.ez (Datum.towgs84 datum)) this in
      let this := Geographic_srs.set_m_towgs84 6 (Towgs84.ppm (Datum.towgs84 datum)) this in
      let ok := DBUG_ASSERT ok (negb (isnan (Geographic_srs.m_towgs84 this 0%nat))) in
      let ok := DBUG_ASSERT ok (negb (isnan (Geographic_srs.m_towgs84 this 1%nat))) in
      let ok := DBUG_ASSERT ok (negb (isnan (Geographic_srs.m_towgs84 this 2%nat))) in
      let ok := DBUG_ASSERT ok (negb (isnan (Geographic_srs.m_towgs84 this 3%nat))) in
      let ok := DBUG_ASSERT ok (negb (isnan (Geographic_srs.m_towgs84 this 4%nat))) in
      let ok := DBUG_ASSERT ok (negb (isnan (Geographic_srs.m_towgs84 this 5%nat))) in
      let ok := DBUG_ASSERT ok (negb (isnan (Geographic_srs.m_towgs84 this 6%nat))) in
      (this, ok)
    else (this, ok) in
  let this := Geographic_srs.set_m_prime_meridian
                (Prime_meridian.longitude (Geographic_cs.prime_meridian g)) this in
  let this := Geographic_srs.set_m_angular_unit
                (Unit.conversion_factor (Geographic_cs.angular_unit g)) this in
  let ok := DBUG_ASSERT ok (negb (isnan (Geographic_srs.m_prime_meridian this))) in
  let ok := DBUG_ASSERT ok (negb (isnan (Geographic_srs.m_angular_unit this))) in
  let '(this, ok) :=
    if Twin_axes.valid (Geographic_cs.axes g) then
      let this := Geographic_srs.set_m_axes 0
                    (Axis.direction (Twin_axes.x (Geographic_cs.axes g))) this in
      let this := Geographic_srs.set_m_axes 1
                    (Axis.direction (Twin_axes.y (Geographic_cs.axes g))) this in
      let ok := DBUG_ASSERT ok (Axis_direction_neq (Geographic_srs.m_axes this 0%nat) UNSPECIFIED) in
      let ok := DBUG_ASSERT ok (Axis_direction_neq (Geographic_srs.m_axes this 1%nat) UNSPECIFIED) in
      (this, ok)
    else (this, ok) in
  mkBuilt false this [] ok.

(** [Projected_srs::init] *)
Definition Projected_srs_init (this : Projected_srs.t) (srid : srid_t)
    (p : Projected_cs.t) : Built Projected_srs.t :=
  let g := Geographic_srs_init (Projected_srs.m_geographic_srs this) srid
             (Projected_cs.geographic_cs p) in
  let res := failed g in
  let this := Projected_srs.set_m_geographic_srs (built g) this in
  let this := Projected_srs.set_m_linear_unit
                (Unit.conversion_factor (Projected_cs.linear_unit p)) this in
  let ok := DBUG_ASSERT (asserted g) (negb (isnan (Projected_srs.m_linear_unit this))) in
  let '(this, ok) :=
    if Twin_axes.valid (Projected_cs.axes p) then
      let this := Projected_srs.set_m_axes 0
                    (Axis.direction (Twin_axes.x (Projected_cs.axes p))) this in
      let this := Projected_srs.set_m_axes 1
                    (Axis.direction (Twin_axes.y (Projected_cs.axes p))) this in
      let ok := DBUG_ASSERT ok (Axis_direction_neq (Projected_srs.m_axes this 0%nat) UNSPECIFIED) in
      let ok := DBUG_ASSERT ok (Axis_direction_neq (Projected_srs.m_axes this 1%nat) UNSPECIFIED) in
      (this, ok)
    else (this, ok) in
  mkBuilt res this (raised g) ok.

(** ** The catalogue of projection variants

    The vector [params] that the [init] of each derived class fills with
    [push_back] before it calls [set_parameters]. *)
Definition params_of (k : Projection_kind) : list (Z * Member) :=
  match k with
  | Unknown_projected_srs => []
  | Popular_visualisation_pseudo_mercator_srs =>
      [(8801, m_latitude_of_origin); (8802, m_longitude_of_origin);
       (8806, m_false_easting); (8807, m_false_northing)]
  | Lambert_azimuthal_equal_area_spherical_srs =>
      [(8801, m_latitude_of_origin); (8802, m_longitude_of_origin);
       (8806, m_false_easting); (8807, m_false_northing)]
  | Equidistant_cylindrical_srs =>
      [(8823, m_standard_parallel_1); (8802, m_longitude_of_origin);
       (8806, m_false_easting); (8807, m_false_northing)]
  | Equidistant_cylindrical_spherical_srs =>
      [(8823, m_standard_parallel_1); (8802, m_longitude_of_origin);
       (8806, m_false_easting); (8807, m_false_northing)]
  | Krovak_north_orientated_srs =>
      [(8811, m_latitude_of_center); (8833, m_longitude_of_center);
       (1036, m_azimuth); (8818, m_pseudo_standard_parallel_1);
       (8819, m_scale_factor); (8806, m_false_easting);
       (8807, m_false_northing)]
  | Krovak_modified_srs =>
      [(8811, m_latitude_of_center); (8833, m_longitude_of_center);
       (1036, m_azimuth); (8818, m_pseudo_standard_parallel_1);
       (8819, m_scale_factor); (8806, m_false_easting);
       (8807, m_false_northing); (8617, m_evaluation_point_ordinate_1);
       (8618, m_evaluation_point_ordinate_2); (1026, m_c1); (1027, m_c2);
       (1028, m_c3); (1029, m_c4); (1030, m_c5); (1031, m_c6); (1032, m_c7);
       (1033, m_c8); (1034, m_c9); (1035, m_c10)]
  | Krovak_modified_north_orientated_srs =>
      [(8811, m_latitude_of_center); (8833, m_longitude_of_center);
       (1036, m_azimuth); (8818, m_pseudo_standard_parallel_1);
       (8819, m_scale_factor); (8806, m_false_easting);
       (8807, m_false_northing); (8617, m_evaluation_point_ordinate_1);
       (8618, m_evaluation_point_ordinate_2); (1026, m_c1); (1027, m_c2);
       (1028, m_c3); (1029, m_c4); (1030, m_c5); (1031, m_c6); (1032, m_c7);
       (1033, m_c8); (1034, m_c9); (1035, m_c10)]
  | Lambert_conic_conformal_2sp_michigan_srs =>
      [(8821, m_latitude_of_origin); (8822, m_longitude_of_origin);
       (8823, m_standard_parallel_1); (8824, m_standard_parallel_2);
       (8826, m_false_easting); (8827, m_false_northing);
       (1038, m_ellipsoid_scale_factor)]
  | Colombia_urban_srs =>
      [(8801, m_latitude_of_origin); (8802, m_longitude_of_origin);
       (8806, m_false_easting); (8807, m_false_northing);
       (1039, m_projection_plane_height_at_origin)]
  | Lambert_conic_conformal_1sp_srs =>
      [(8801, m_latitude_of_origin); (8802, m_longitude_of_origin);
       (8805, m_scale_factor); (8806, m_false_easting);
       (8807, m_false_northing)]
  | Lambert_conic_conformal_2sp_srs =>
      [(8821, m_latitude_of_origin); (8822, m_longitude_of_origin);
       (8823, m_standard_parallel_1); (8824, m_standard_parallel_2);
       (8826, m_false_easting); (8827, m_false_northing)]
  | Lambert_conic_conformal_2sp_belgium_srs =>
      [(8821, m_latitude_of_origin); (8822, m_longitude_of_origin);
       (8823, m_standard_parallel_1); (8824, m_standard_parallel_2);
       (8826, m_false_easting); (8827, m_false_northing)]
  | Mercator_variant_a_srs =>
      [(8801, m_latitude_of_origin); (8802, m_longitude_of_origin);
       (8805, m_scale_factor); (8806, m_false_easting);
       (8807, m_false_northing)]
  | Mercator_variant_b_srs =>
      [(8823, m_standard_parallel_1); (8802, m_longitude_of_origin);
       (8806, m_false_easting); (8807, m_false_northing)]
  | Cassini_soldner_srs =>
      [(8801, m_latitude_of_origin); (8802, m_longitude_of_origin);
       (8806, m_false_easting); (8807, m_false_northing)]
  | Transverse_mercator_srs =>
      [(8801, m_latitude_of_origin); (8802, m_longitude_of_origin);
       (8805, m_scale_factor); (8806, m_false_easting);
       (8807, m_false_northing)]
  | Transverse_mercator_south_orientated_srs =>
      [(8801, m_latitude_of_origin); (8802, m_longitude_of_origin);
       (8805, m_scale_factor); (8806, m_false_easting);
       (8807, m_false_northing)]
  | Oblique_stereographic_srs =>
      [(8801, m_latitude_of_origin); (8802, m_longitude_of_origin);
       (8805, m_scale_factor); (8806, m_false_easting);
       (8807, m_false_northing)]
  | Polar_stereographic_variant_a_srs =>
      [(8801, m_latitude_of_origin); (8802, m_longitude_of_origin);
       (8805, m_scale_factor); (8806, m_false_easting);
       (8807, m_false_northing)]
  | New_zealand_map_grid_srs =>
      [(8801, m_latitude_of_origin); (8802, m_longitude_of_origin);
       (8806, m_false_easting); (8807, m_false_northing)]
  | Hotine_oblique_mercator_variant_a_srs =>
      [(8811, m_latitude_of_center); (8812, m_longitude_of_center);
       (8813, m_azimuth); (8814, m_rectified_grid_angle);
       (8815, m_scale_factor); (8806, m_false_easting);
       (8807, m_false_northing)]
  | Laborde_oblique_mercator_srs =>
      [(8811, m_latitude_of_center); (8812, m_longitude_of_center);
       (8813, m_azimuth); (8815, m_scale_factor); (8806, m_false_easting);
       (8807, m_false_northing)]
  | Hotine_oblique_mercator_variant_b_srs =>
      [(8811, m_latitude_of_center); (8812, m_longitude_of_center);
       (8813, m_azimuth); (8814, m_rectified_grid_angle);
       (8815, m_scale_factor); (8816, m_false_easting);
       (8817, m_false_northing)]
  | Tunisia_mining_grid_srs =>
      [(8821, m_latitude_of_origin); (8822, m_longitude_of_origin);
       (8826, m_false_easting); (8827, m_false_northing)]
  | Lambert_conic_near_conformal_srs =>
      [(8801, m_latitude_of_origin); (8802, m_longitude_of_origin);
       (8805, m_scale_factor); (8806, m_false_easting);
       (8807, m_false_northing)]
  | American_polyconic_srs =>
      [(8801, m_latitude_of_origin); (8802, m_longitude_of_origin);
       (8806, m_false_easting); (8807, m_false_northing)]
  | Krovak_srs =>
      [(8811, m_latitude_of_center); (8833, m_longitude_of_center);
       (1036, m_azimuth); (8818, m_pseudo_standard_parallel_1);
       (8819, m_scale_factor); (8806, m_false_easting);
       (8807, m_false_northing)]
  | Lambert_azimuthal_equal_area_srs =>
      [(8801, m_latitude_of_origin); (8802, m_longitude_of_origin);
       (8806, m_false_easting); (8807, m_false_northing)]
  | Albers_equal_area_srs =>
      [(8821, m_latitude_of_origin); (8822, m_longitude_of_origin);
       (8823, m_standard_parallel_1); (8824, m_standard_parallel_2);
       (8826, m_false_easting); (8827, m_false_northing)]
  | Transverse_mercator_zoned_grid_system_srs =>
      [(8801, m_latitude_of_origin); (8830, m_initial_longitude);
       (8831, m_zone_width); (8805, m_scale_factor); (8806, m_false_easting);
       (8807, m_false_northing)]
  | Lambert_conic_conformal_west_orientated_srs =>
      [(8801, m_latitude_of_origin); (8802, m_longitude_of_origin);
       (8805, m_scale_factor); (8806, m_false_easting);
       (8807, m_false_northing)]
  | Bonne_south_orientated_srs =>
      [(8801, m_latitude_of_origin); (8802, m_longitude_of_origin);
       (8806, m_false_easting); (8807, m_false_northing)]
  | Polar_stereographic_variant_b_srs =>
      [(8832, m_standard_parallel); (8833, m_longitude_of_origin);
       (8806, m_false_easting); (8807, m_false_northing)]
  | Polar_stereographic_variant_c_srs =>
      [(8832, m_standard_parallel); (8833, m_longitude_of_origin);
       (8826, m_false_easting); (8827, m_false_northing)]
  | Guam_projection_srs =>
      [(8801, m_latitude_of_origin); (8802, m_longitude_of_origin);
       (8806, m_false_easting); (8807, m_false_northing)]
  | Modified_azimuthal_equidistant_srs =>
      [(8801, m_latitude_of_origin); (8802, m_longitude_of_origin);
       (8806, m_false_easting); (8807, m_false_northing)]
  | Hyperbolic_cassini_soldner_srs =>
      [(8801, m_latitude_of_origin); (8802, m_longitude_of_origin);
       (8806, m_false_easting); (8807, m_false_northing)]
  | Lambert_cylindrical_equal_area_spherical_srs =>
      [(8823, m_standard_parallel_1); (8802, m_longitude_of_origin);
       (8806, m_false_easting); (8807, m_false_northing)]
  | Lambert_cylindrical_equal_area_srs =>
      [(8823, m_standard_parallel_1); (8802, m_longitude_of_origin);
       (8806, m_false_easting); (8807, m_false_northing)]
  end.

(** The virtual [init] of the derived classes.  [Unknown_projected_srs]
    only runs the base builder; every other class runs the base builder
    and then the extractor on its own vector:
<<
    bool res= Projected_srs::init(srid, p);
    res|= set_parameters(srid, p, &params);
    return res;
>> *)
Definition init (this : Projected_srs.t) (srid : srid_t) (p : Projected_cs.t)
  : Built Projected_srs.t :=
  match Projected_srs.kind this with
  | Unknown_projected_srs => Projected_srs_init this srid p
  | k =>
      let params := params_of k in
      let b := Projected_srs_init this srid p in
      let '(res, st, errs) :=
        set_parameters srid p params (Projected_srs.members (built b)) in
      mkBuilt (failed b || res) (Projected_srs.set_members st (built b))
              (raised b ++ errs) (asserted b)
  end.

(** ** The projection factory *)

(** [new_projection] *)
Definition new_projection (epsg_code : Z) : Projected_srs.t :=
  match epsg_code with
  | 0 => Projected_srs.new Unknown_projected_srs
  | 1024 => Projected_srs.new Popular_visualisation_pseudo_mercator_srs
  | 1027 => Projected_srs.new Lambert_azimuthal_equal_area_spherical_srs
  | 1028 => Projected_srs.new Equidistant_cylindrical_srs
  | 1029 => Projected_srs.new Equidistant_cylindrical_spherical_srs
  | 1041 => Projected_srs.new Krovak_north_orientated_srs
  | 1042 => Projected_srs.new Krovak_modified_srs
  | 1043 => Projected_srs.new Krovak_modified_north_orientated_srs
  | 1051 => Projected_srs.new Lambert_conic_conformal_2sp_michigan_srs
  | 1052 => Projected_srs.new Colombia_urban_srs
  | 9801 => Projected_srs.new Lambert_conic_conformal_1sp_srs
  | 9802 => Projected_srs.new Lambert_conic_conformal_2sp_srs
  | 9803 => Projected_srs.new Lambert_conic_conformal_2sp_belgium_srs
  | 9804 => Projected_srs.new Mercator_variant_a_srs
  | 9805 => Projected_srs.new Mercator_variant_b_srs
  | 9806 => Projected_srs.new Cassini_soldner_srs
  | 9807 => Projected_srs.new Transverse_mercator_srs
  | 9808 => Projected_srs.new Transverse_mercator_south_orientated_srs
  | 9809 => Projected_srs.new Oblique_stereographic_srs
  | 9810 => Projected_srs.new Polar_stereographic_variant_a_srs
  | 9811 => Projected_srs.new New_zealand_map_grid_srs
  | 9812 => Projected_srs.new Hotine_oblique_mercator_variant_a_srs
  | 9813 => Projected_srs.new Laborde_oblique_mercator_srs
  | 9815 => Projected_srs.new Hotine_oblique_mercator_variant_b_srs
  | 9816 => Projected_srs.new Tunisia_mining_grid_srs
  | 9817 => Projected_srs.new Lambert_conic_near_conformal_srs
  | 9818 => Projected_srs.new American_polyconic_srs
  | 9819 => Projected_srs.new Krovak_srs
  | 9820 => Projected_srs.new Lambert_azimuthal_equal_area_srs
  | 9822 => Projected_srs.new Albers_equal_area_srs
  | 9824 => Projected_srs.new Transverse_mercator_zoned_grid_system_srs
  | 9826 => Projected_srs.new Lambert_conic_conformal_west_orientated_srs
  | 9828 => Projected_srs.new Bonne_south_orientated_srs
  | 9829 => Projected_srs.new Polar_stereographic_variant_b_srs
  | 9830 => Projected_srs.new Polar_stereographic_variant_c_srs
  | 9831 => Projected_srs.new Guam_projection_srs
  | 9832 => Projected_srs.new Modified_azimuthal_equidistant_srs
  | 9833 => Projected_srs.new Hyperbolic_cassini_soldner_srs
  | 9834 => Projected_srs.new Lambert_cylindrical_equal_area_spherical_srs
  | 9835 => Projected_srs.new Lambert_cylindrical_equal_area_srs
  | _ => Projected_srs.new Unknown_projected_srs
  end.

(** ** Allocation

    Objects made with [new] live in a heap, at addresses; a pointer is an
    address or [nullptr].  The state threaded through the orchestrator
    holds the heap, the errors raised so far and whether every
    [DBUG_ASSERT] met so far held. *)

Definition address : Type := nat.

Definition pointer : Type := option address.

Definition nullptr : pointer := None.

Record State : Type := mkState {
  heap : gmap address Spatial_reference_system;
  errors : list Diagnostic;
  asserts : bool
}.

(** [my_error(...)] *)
Definition my_error (e : list Diagnostic) (σ : State) : State :=
  mkState (heap σ) (errors σ ++ e) (asserts σ).

(** [new T()]: a fresh address, holding the object just constructed. *)
Definition new (o : Spatial_reference_system) (σ : State) : address * State :=
  let a := fresh (dom (heap σ)) in
  (a, mkState (<[a := o]> (heap σ)) (errors σ) (asserts σ)).

(** [delete p] *)
Definition delete_object (a : address) (σ : State) : State :=
  mkState (delete a (heap σ)) (errors σ) (asserts σ).

(** A method has run on the object at [a] and left [b] behind. *)
Definition commit {A : Type} (wrap : A → Spatial_reference_system)
    (a : address) (b : Built A) (σ : State) : State :=
  mkState (<[a := wrap (built b)]> (heap σ)) (errors σ ++ raised b)
          (asserts σ && asserted b).

(** [create_geographic_srs]: the flag and what [*srs] holds afterwards. *)
Definition create_geographic_srs (srid : srid_t) (geog : Geographic_cs.t)
    (σ : State) : bool * pointer * State :=
  let '(a, σ) := new (Geographic_object Geographic_srs.new) σ in
  let b := Geographic_srs_init Geographic_srs.new srid geog in
  (failed b, Some a, commit Geographic_object a b σ).

(** [create_projected_srs]: the flag and what [*srs] holds afterwards. *)
Definition create_projected_srs (srid : srid_t) (proj : Projected_cs.t)
    (σ : State) : bool * pointer * State :=
  let epsg_code := 0 in
  let epsg_code :=
    if strcaseeq "EPSG" (Authority.name (Projection.authority (Projected_cs.projection proj)))
    then
      match stoi (Authority.code (Projection.authority (Projected_cs.projection proj))) with
      | Some n => n
      | None => 0 (* catch (...): invalid or out of range *)
      end
    else epsg_code in
  let this := new_projection epsg_code in
  let '(a, σ) := new (Projected_object this) σ in
  let b := init this srid proj in
  (failed b, Some a, commit Projected_object a b σ).

Section orchestrator.

  (** The grammar, [gis::srs::wkt_parser::parse_wkt], is an external
      collaborator: given the SRID and the text between [begin] and [end]
      it yields its failure flag, the tree it has filled in and the errors
      it has raised itself. *)
Variable wp_parse_wkt : srid_t → string → bool * Coordinate_system * list Diagnostic.

(** [if (res && tmp != nullptr) { delete tmp; tmp= nullptr; }] *)
Definition discard_on_failure (res : bool) (tmp : pointer) (σ : State)
  : pointer * State :=
  match tmp with
  | Some a => if res then (nullptr, delete_object a σ) else (tmp, σ)
  | None => (tmp, σ)
  end.

(** [gis::srs::parse_wkt].  The text is [None] when [begin] is the null
    pointer and otherwise the bytes from [begin] up to [end]; [result]
    is what the caller's slot [*result] holds on entry.  The outcome is
    the flag, what the slot holds on return, and the state. *)
Definition parse_wkt (srid : srid_t) (text : option string)
    (result : pointer) (σ : State) : bool * pointer * State :=
  match text with
  | None | Some "" =>
      (true, result, my_error [ER_SRS_PARSE_ERROR srid] σ)
  | Some s =>
      let '(res, cs, errs) := wp_parse_wkt srid s in
      let σ := my_error errs σ in
      if negb res then
        match cs with
        | Projected proj =>
            let '(res, tmp, σ) := create_projected_srs srid proj σ in
            let '(tmp, σ) := discard_on_failure res tmp σ in
            (res, tmp, σ)
        | Geographic geog =>
            let '(res, tmp, σ) := create_geographic_srs srid geog σ in
            let '(tmp, σ) := discard_on_failure res tmp σ in
            (res, tmp, σ)
        end
      else (res, result, σ)
  end.

End orchestrator.

(** ** Notions used to state the properties *)

(** The three tests of the inner loop of [set_parameters] and the test
    that guards the first of them. *)
Definition is_epsg (i : Projection_parameter.t) : bool :=
  strcaseeq "EPSG" (Authority.name (Projection_parameter.authority i)).

Definition code_matches (i : Projection_parameter.t) (c : Z) : bool :=
  strcaseeq (to_string c) (Authority.code (Projection_parameter.authority i)).

Definition name_matches (i : Projection_parameter.t) (c : Z) : bool :=
  strcaseeq (at_key param_names c) (Projection_parameter.name i).

Definition alias_matches (i : Projection_parameter.t) (c : Z) : bool :=
  strcaseeq (at_key param_aliases c) (Projection_parameter.name i).

(** The assignment of the inner loop that is reached, if any. *)
Inductive Branch : Type := By_code | By_name | By_alias.

Definition branch (i : Projection_parameter.t) (c : Z) : option Branch :=
  if is_epsg i then
    if code_matches i c then Some By_code else None
  else if name_matches i c then Some By_name
  else if alias_matches i c then Some By_alias
  else None.

(** The parsed parameter [i] matches the descriptor code [c]: one of the
    assignments is reached. *)
Definition matches (i : Projection_parameter.t) (c : Z) : bool :=
  match branch i c with
  | Some _ => true
  | None => false
  end.

(** The priority as the specification words it: the authority test, else
    the name, else an alias, where a failed authority test falls through
    to the name. *)
Definition spec_branch (i : Projection_parameter.t) (c : Z) : option Branch :=
  if is_epsg i && code_matches i c then Some By_code
  else if name_matches i c then Some By_name
  else if alias_matches i c then Some By_alias
  else None.

Section extractor_notions.

Context {Slot : Type} `{EqDecision Slot}.

(** [i] matches a descriptor of [params] whose destination is [s]. *)
Definition slot_matched (params : list (Z * Slot)) (s : Slot)
    (i : Projection_parameter.t) : bool :=
  existsb (λ d, matches i d.1 && bool_decide (d.2 = s)) params.

(** The last parameter of the list [P], in the order of the parse tree,
    that matches a descriptor with destination [s]. *)
Definition last_matching (P : list Projection_parameter.t)
    (params : list (Z * Slot)) (s : Slot) : option Projection_parameter.t :=
  List.find (slot_matched params s) (rev P).

(** The first descriptor, in the order of the vector, whose double is
    NaN. *)
Definition first_missing (params : list (Z * Slot)) (st : Slot → double)
  : option (Z * Slot) :=
  List.find (λ d, isnan (st d.2)) params.

End extractor_notions.

(** What the grammar guarantees about a tree, as srs.cc relies on it in
    its comments and assertions: the required doubles are numbers, a
    datum shift marked valid has seven numbers, and axes marked valid
    both have a direction. *)
Definition Twin_axes_wf (a : Twin_axes.t) : bool :=
  if Twin_axes.valid a then
    Axis_direction_neq (Axis.direction (Twin_axes.x a)) UNSPECIFIED
    && Axis_direction_neq (Axis.direction (Twin_axes.y a)) UNSPECIFIED
  else true.

Definition Towgs84_wf (t : Towgs84.t) : bool :=
  if Towgs84.valid t then
    negb (isnan (Towgs84.dx t)) && negb (isnan (Towgs84.dy t))
    && negb (isnan (Towgs84.dz t)) && negb (isnan (Towgs84.ex t))
    && negb (isnan (Towgs84.ey t)) && negb (isnan (Towgs84.ez t))
    && negb (isnan (Towgs84.ppm t))
  else true.

Definition Geographic_cs_wf (g : Geographic_cs.t) : bool :=
  negb (isnan (Spheroid.semi_major_axis (Datum.spheroid (Geographic_cs.datum g))))
  && negb (isnan (Spheroid.inverse_flattening (Datum.spheroid (Geographic_cs.datum g))))
  && Towgs84_wf (Datum.towgs84 (Geographic_cs.datum g))
  && negb (isnan (Prime_meridian.longitude (Geographic_cs.prime_meridian g)))
  && negb (isnan (Unit.conversion_factor (Geographic_cs.angular_unit g)))
  && Twin_axes_wf (Geographic_cs.axes g).

Definition Projected_cs_wf (p : Projected_cs.t) : bool :=
  Geographic_cs_wf (Projected_cs.geographic_cs p)
  && negb (isnan (Unit.conversion_factor (Projected_cs.linear_unit p)))
  && Twin_axes_wf (Projected_cs.axes p).

Definition Coordinate_system_wf (cs : Coordinate_system) : bool :=
  match cs with
  | Projected p => Projected_cs_wf p
  | Geographic g => Geographic_cs_wf g
  end.

(** The invariants of a finished object. *)






(** The catalogue of the factory as a table: the method codes and the
    class made for each. *)
Definition catalogue : list (Z * Projection_kind) :=
  [ (1024, Popular_visualisation_pseudo_mercator_srs);
    (1027, Lambert_azimuthal_equal_area_spherical_srs);
    (1028, Equidistant_cylindrical_srs);
    (1029, Equidistant_cylindrical_spherical_srs);
    (1041, Krovak_north_orientated_srs);
    (1042, Krovak_modified_srs);
    (1043, Krovak_modified_north_orientated_srs);
    (1051, Lambert_conic_conformal_2sp_michigan_srs);
    (1052, Colombia_urban_srs);
    (9801, Lambert_conic_conformal_1sp_srs);
    (9802, Lambert_conic_conformal_2sp_srs);
    (9803, Lambert_conic_conformal_2sp_belgium_srs);
    (9804, Mercator_variant_a_srs);
    (9805, Mercator_variant_b_srs);
    (9806, Cassini_soldner_srs);
    (9807, Transverse_mercator_srs);
    (9808, Transverse_mercator_south_orientated_srs);
    (9809, Oblique_stereographic_srs);
    (9810, Polar_stereographic_variant_a_srs);
    (9811, New_zealand_map_grid_srs);
    (9812, Hotine_oblique_mercator_variant_a_srs);
    (9813, Laborde_oblique_mercator_srs);
    (9815, Hotine_oblique_mercator_variant_b_srs);
    (9816, Tunisia_mining_grid_srs);
    (9817, Lambert_conic_near_conformal_srs);
    (9818, American_polyconic_srs);
    (9819, Krovak_srs);
    (9820, Lambert_azimuthal_equal_area_srs);
    (9822, Albers_equal_area_srs);
    (9824, Transverse_mercator_zoned_grid_system_srs);
    (9826, Lambert_conic_conformal_west_orientated_srs);
    (9828, Bonne_south_orientated_srs);
    (9829, Polar_stereographic_variant_b_srs);
    (9830, Polar_stereographic_variant_c_srs);
    (9831, Guam_projection_srs);
    (9832, Modified_azimuthal_equidistant_srs);
    (9833, Hyperbolic_cassini_soldner_srs);
    (9834, Lambert_cylindrical_equal_area_spherical_srs);
    (9835, Lambert_cylindrical_equal_area_srs) ].

(** The codes the specification lists as catalogued. *)
Definition catalogued_codes : list Z :=
  [1024; 1027; 1028; 1029; 1041; 1042; 1043; 1051; 1052]
  ++ seqZ 9801 13 ++ seqZ 9815 6 ++ [9822; 9824; 9826] ++ seqZ 9828 8.

(** A freshly constructed object: every double is the sentinel and no
    axis has a direction. *)
Definition Geographic_srs_seeded (o : Geographic_srs.t) : Prop :=
  Geographic_srs.m_semi_major_axis o = NAN
  ∧ Geographic_srs.m_inverse_flattening o = NAN
  ∧ (∀ k, Geographic_srs.m_towgs84 o k = NAN)
  ∧ Geographic_srs.m_prime_meridian o = NAN
  ∧ Geographic_srs.m_angular_unit o = NAN
  ∧ (∀ k, Geographic_srs.m_axes o k = UNSPECIFIED).

Definition Projected_srs_seeded (o : Projected_srs.t) : Prop :=
  Geographic_srs_seeded (Projected_srs.m_geographic_srs o)
  ∧ Projected_srs.m_linear_unit o = NAN
  ∧ (∀ k, Projected_srs.m_axes o k = UNSPECIFIED)
  ∧ (∀ m, Projected_srs.members o m = NAN).

(** The method code [create_projected_srs] hands to the factory. *)
Definition method_code (proj : Projected_cs.t) : Z :=
  let authority := Projection.authority (Projected_cs.projection proj) in
  if strcaseeq "EPSG" (Authority.name authority) then
    default 0 (stoi (Authority.code authority))
  else 0.

(** ** Sample trees

    The trees that the concrete instances below are run on: the
    geographic CS of WGS 84 and a projected CS over it. *)

Definition no_authority : Authority.t := Authority.mk "" "".

Definition unnamed_axes : Twin_axes.t :=
  Twin_axes.mk false (Axis.mk UNSPECIFIED) (Axis.mk UNSPECIFIED).

Definition wgs84 : Geographic_cs.t :=
  Geographic_cs.mk
    (Datum.mk
       (Spheroid.mk (S754_finite false 6378137 0)
                    (S754_finite false 0x12a41d96746d88 (-44)))
       (Towgs84.mk true d_zero d_zero d_zero d_zero d_zero d_zero d_zero))
    (Prime_meridian.mk d_zero)
    (Unit.mk (S754_finite false 0x11df46a2529d34 (-58)))
    (Twin_axes.mk true (Axis.mk NORTH) (Axis.mk EAST)).

Definition metre : Unit.t := Unit.mk (S754_finite false 1 0).

(** A projected CS over [geog] with the given method authority and
    parameter list. *)
Definition projected_over (geog : Geographic_cs.t) (method : Authority.t)
    (parameters : list Projection_parameter.t) (linear_unit : Unit.t)
    (axes : Twin_axes.t) : Projected_cs.t :=
  Projected_cs.mk geog (Projection.mk method) parameters linear_unit axes.

(** The five parameters of the end-to-end example, given by name. *)
Definition utm32_parameters : list Projection_parameter.t :=
  [ Projection_parameter.mk "latitude_of_origin" d_zero no_authority;
    Projection_parameter.mk "central_meridian" d_9 no_authority;
    Projection_parameter.mk "scale_factor" d_0_9996 no_authority;
    Projection_parameter.mk "false_easting" d_500000 no_authority;
    Projection_parameter.mk "false_northing" d_zero no_authority ].

(** A grammar that accepts every text and yields the tree [cs]. *)
Definition grammar_yields (cs : Coordinate_system)
  : srid_t → string → bool * Coordinate_system * list Diagnostic :=
  λ _ _, (false, cs, []).

Definition empty_state : State := mkState ∅ [] true.

(** ** Further notions *)

(** What [my_strcasecmp] sees of a string: the bytes before the first
    NUL, each through the [to_upper] table. *)
Fixpoint casefold (s : string) : list N :=
  match s with
  | EmptyString => []
  | String c s' => if Ascii.eqb c NUL then [] else to_upper c :: casefold s'
  end.

(** The bytes [c_str()] shows to a C routine: those before the first
    NUL. *)
Fixpoint c_str (s : string) : string :=
  match s with
  | EmptyString => EmptyString
  | String c s' => if Ascii.eqb c NUL then EmptyString else String c (c_str s')
  end.

(** The tree [proj] with another parameter list. *)
Definition with_parameters (P : list Projection_parameter.t)
    (proj : Projected_cs.t) : Projected_cs.t :=
  Projected_cs.mk (Projected_cs.geographic_cs proj) (Projected_cs.projection proj)
    P (Projected_cs.linear_unit proj) (Projected_cs.axes proj).

(** [i] matches some descriptor of the vector. *)
Definition matched_somewhere {Slot : Type} (params : list (Z * Slot))
    (i : Projection_parameter.t) : bool :=
  existsb (λ d, matches i d.1) params.

(** Two parsed parameters that differ by the case of their name, of their
    authority name and of their authority code only. *)
Definition same_up_to_case (i i' : Projection_parameter.t) : bool :=
  strcaseeq (Projection_parameter.name i) (Projection_parameter.name i')
  && strcaseeq (Authority.name (Projection_parameter.authority i))
       (Authority.name (Projection_parameter.authority i'))
  && strcaseeq (Authority.code (Projection_parameter.authority i))
       (Authority.code (Projection_parameter.authority i')).

(** The strings a parameter name is compared with for the code [c]. *)
Definition labels (c : Z) : list string :=
  [at_key param_names c; at_key param_aliases c].

(** No two descriptors of the vector can be matched by one parameter:
    their codes differ as decimal strings, and a label of one equals a
    label of the other, up to case, only when it reads as the empty
    string. *)
Definition exclusive (params : list (Z * Member)) : bool :=
  forallb (λ d, forallb (λ d',
    bool_decide (d = d')
    || (negb (strcaseeq (to_string d.1) (to_string d'.1))
        && forallb (λ l, forallb (λ l',
             negb (strcaseeq l l') || strcaseeq "" l) (labels d'.1))
             (labels d.1))) params) params.

(** The error [e] as it would be raised for the SRID [srid]. *)
Definition with_srid (srid : srid_t) (e : Diagnostic) : Diagnostic :=
  match e with
  | ER_SRS_PARSE_ERROR _ => ER_SRS_PARSE_ERROR srid
  | ER_SRS_PROJ_PARAMETER_MISSING _ name epsg_code =>
      ER_SRS_PROJ_PARAMETER_MISSING srid name epsg_code
  end.

(** The bytes [std::to_string] writes: digits and the minus sign. *)
Definition is_plain (c : ascii) : bool :=
  let n := N_of_ascii c in
  ((n =? 45) || ((48 <=? n) && (n <=? 57)))%N.

Fixpoint plain (s : string) : bool :=
  match s with
  | EmptyString => true
  | String c s' => is_plain c && plain s'
  end.

(** A string of white space only. *)
Fixpoint blank (s : string) : bool :=
  match s with
  | EmptyString => true
  | String c s' => isspace c && blank s'
  end.

(** The tree of the end-to-end example, and members that are all NaN. *)
Definition utm32 : Projected_cs.t :=
  projected_over wgs84 (Authority.mk "EPSG" "9807") utm32_parameters metre
    unnamed_axes.

Definition all_nan : Member → double := λ _, NAN.


(** A heap with one object, at address 7, and a slot that points at
    it. *)
Definition one_object : State :=
  mkState {[ 7%nat := Geographic_object Geographic_srs.new ]} [] true.

(** A grammar that rejects every text. *)
Definition grammar_rejects
  : srid_t → string → bool * Coordinate_system * list Diagnostic :=
  λ srid _, (true, Geographic wgs84, [ER_SRS_PARSE_ERROR srid]).


Example to_string_8801 : to_string 8801 = "8801".
Proof. reflexivity. Qed.

Example to_string_neg : to_string (-12) = "-12".
Proof. reflexivity. Qed.

Example strcaseeq_epsg : strcaseeq "EPSG" "ePsg" = true.
Proof. reflexivity. Qed.

Example strcaseeq_prefix : strcaseeq "EPSG" "EPSGX" = false.
Proof. reflexivity. Qed.

Example stoi_9807 : stoi "9807" = Some 9807.
Proof. reflexivity. Qed.

Example stoi_trailing : stoi "  +12abc" = Some 12.
Proof. reflexivity. Qed.

Example stoi_ABC : stoi "ABC" = None.
Proof. reflexivity. Qed.

Example stoi_out_of_range : stoi "2147483648" = None.
Proof. reflexivity. Qed.

(** ** The extractor: one parameter against one descriptor *)

Section extractor_facts.

Context {Slot : Type} `{EqDecision Slot}.

Implicit Types (i : Projection_parameter.t) (st : Slot → double)
  (params : list (Z * Slot)) (s : Slot) (c : Z).

Lemma assign_branch i st c s :
  assign i st (c, s) =
    match branch i c with
    | Some _ => <[s := Projection_parameter.value i]> st
    | None => st
    end.
Proof.
  unfold assign, branch, is_epsg, code_matches, name_matches, alias_matches.
  cbn [fst snd].
  destruct (strcaseeq "EPSG" _); [by destruct (strcaseeq _ _)|].
  destruct (strcaseeq _ _); [done|]. by destruct (strcaseeq _ _).
Qed.

Lemma assign_lookup i st c s s' :
  assign i st (c, s) s' =
    if matches i c && bool_decide (s = s')
    then Projection_parameter.value i else st s'.
Proof.
  rewrite assign_branch. unfold matches.
  destruct (branch i c); simpl; [|done].
  case_bool_decide as Hs.
  - subst. apply fn_lookup_insert.
  - by apply fn_lookup_insert_ne.
Qed.

Lemma matches_cases i c :
  matches i c =
    if is_epsg i then code_matches i c
    else name_matches i c || alias_matches i c.
Proof. unfold matches, branch. by repeat case_match. Qed.

(** One parameter against the whole vector. *)
Lemma assign_all_lookup i params st s :
  foldl (assign i) st params s =
    if slot_matched params s i then Projection_parameter.value i else st s.
Proof.
  revert st. induction params as [|[c s0] params IH]; intros st; [done|].
  simpl. rewrite IH, assign_lookup. unfold slot_matched at 2. simpl.
  fold (slot_matched params s i).
  destruct (slot_matched params s i); [by rewrite orb_true_r|].
  by rewrite orb_false_r.
Qed.

(** The whole scan: a slot holds the value of the last parameter that
    matched one of its descriptors, or what it held before. *)
Lemma scan_lookup proj params st s :
  scan proj params st s =
    match last_matching (Projected_cs.parameters proj) params s with
    | Some i => Projection_parameter.value i
    | None => st s
    end.
Proof.
  unfold scan, last_matching.
  induction (Projected_cs.parameters proj) as [|i P IH] using rev_ind; [done|].
  rewrite foldl_app, rev_app_distr. simpl.
  rewrite assign_all_lookup.
  by destruct (slot_matched params s i).
Qed.

Lemma check_first_missing srid params st :
  check srid params st =
    match first_missing params st with
    | Some d =>
        (true, [ER_SRS_PROJ_PARAMETER_MISSING srid (at_key param_names d.1) d.1])
    | None => (false, [])
    end.
Proof.
  unfold first_missing.
  induction params as [|d params IH]; [done|]. simpl.
  by destruct (isnan (st d.2)).
Qed.

Lemma first_missing_None params st :
  first_missing params st = None ↔ ∀ d, d ∈ params → isnan (st d.2) = false.
Proof.
  unfold first_missing. split.
  - intros Hn d Hd. apply (find_none _ _ Hn d). by apply list_elem_of_In.
  - intros Hall. destruct (List.find _ params) as [d|] eqn:Hf; [|done].
    apply find_some in Hf as [Hin Hnan].
    apply list_elem_of_In, Hall in Hin. simpl in *. congruence.
Qed.

Lemma first_missing_Some params st d :
  first_missing params st = Some d →
  ∃ before after : list (Z * Slot),
    params = (before ++ d :: after)%list
    ∧ isnan (st d.2) = true
    ∧ ∀ d', d' ∈ before → isnan (st d'.2) = false.
Proof.
  unfold first_missing.
  induction params as [|d0 params IH]; [done|]. simpl. intros Hf.
  destruct (isnan (st d0.2)) eqn:Hd0.
  - simplify_eq. exists [], params. split_and!; [done..|].
    intros d' Hd'. by apply elem_of_nil in Hd'.
  - destruct (IH Hf) as (before & after & -> & Hnan & Hbefore).
    exists (d0 :: before), after. split_and!; [done..|].
    intros d' [->|Hd']%elem_of_cons; auto.
Qed.

Lemma last_matching_Some P params s i :
  last_matching P params s = Some i → i ∈ P ∧ slot_matched params s i = true.
Proof.
  unfold last_matching. intros Hf. apply find_some in Hf as [Hin Hm].
  split; [|done]. apply list_elem_of_In. by apply in_rev.
Qed.

Lemma last_matching_None P params s i :
  last_matching P params s = None → i ∈ P → slot_matched params s i = false.
Proof.
  unfold last_matching. intros Hf Hin. apply (find_none _ _ Hf).
  apply in_rev. rewrite rev_involutive. by apply list_elem_of_In.
Qed.

Lemma slot_matched_intro params c s i :
  (c, s) ∈ params → matches i c = true → slot_matched params s i = true.
Proof.
  intros Hin Hm. unfold slot_matched. apply existsb_exists.
  exists (c, s). split; [by apply list_elem_of_In|]. simpl.
  rewrite Hm. by rewrite bool_decide_eq_true_2.
Qed.


End extractor_facts.

(** ** Properties of the parameter extractor *)

Section extractor_claims.

Context {Slot : Type} `{EqDecision Slot}.

Implicit Types (i : Projection_parameter.t) (st : Slot → double)
  (params : list (Z * Slot)) (s : Slot) (c : Z).

(** C1 (amended).  For a parsed parameter [i] and a descriptor with code
    [c] and destination [s], the value of [i] is assigned to [s] exactly
    when [i] matches [c], and nothing else changes.  A parameter whose
    authority name is case-insensitively "EPSG" matches by its authority
    code alone: its name is not looked at.  Any other parameter matches
    when its name is case-insensitively the canonical name of [c], or
    else when it is the alias of [c]. *)
Theorem C1_assignment_priority i st c s :
  assign i st (c, s) =
    (if matches i c then <[s := Projection_parameter.value i]> st else st)
  ∧ matches i c =
      (if is_epsg i then code_matches i c
       else name_matches i c || alias_matches i c)
  ∧ (branch i c = Some By_code ↔ is_epsg i = true ∧ code_matches i c = true)
  ∧ (branch i c = Some By_name ↔ is_epsg i = false ∧ name_matches i c = true)
  ∧ (branch i c = Some By_alias ↔
       is_epsg i = false ∧ name_matches i c = false ∧ alias_matches i c = true).
Proof.
  split_and!.
  - rewrite assign_branch. unfold matches. by destruct (branch i c).
  - apply matches_cases.
  - unfold branch.
    destruct (is_epsg i), (code_matches i c), (name_matches i c),
      (alias_matches i c); intuition congruence.
  - unfold branch.
    destruct (is_epsg i), (code_matches i c), (name_matches i c),
      (alias_matches i c); intuition congruence.
  - unfold branch.
    destruct (is_epsg i), (code_matches i c), (name_matches i c),
      (alias_matches i c); intuition congruence.
Qed.

(** C3.  [set_parameters] leaves the doubles as the scan has left them;
    it returns true exactly when the double of some descriptor is NaN
    after the scan, and then raises one error, with the SRID, the
    canonical name and the code of the first such descriptor; otherwise
    it raises none. *)
Theorem C3_missing_parameter srid proj params st :
  let st' := scan proj params st in
  let r := set_parameters srid proj params st in
  r.1.2 = st'
  ∧ (r.1.1 = true ↔ ∃ d, d ∈ params ∧ isnan (st' d.2) = true)
  ∧ match first_missing params st' with
    | Some d =>
        r.1.1 = true
        ∧ r.2 = [ER_SRS_PROJ_PARAMETER_MISSING srid (at_key param_names d.1) d.1]
        ∧ ∃ before after : list (Z * Slot),
            params = (before ++ d :: after)%list
            ∧ isnan (st' d.2) = true
            ∧ ∀ d', d' ∈ before → isnan (st' d'.2) = false
    | None => r.1.1 = false ∧ r.2 = []
    end.
Proof.
  intros st' r. subst r. unfold set_parameters. fold st'.
  rewrite check_first_missing.
  destruct (first_missing params st') as [d|] eqn:Hf; simpl.
  - split_and!; try done.
    + split; [|done]. intros _. exists d.
      apply find_some in Hf as [Hin Hnan]. split; [|done].
      by apply list_elem_of_In.
    + by apply first_missing_Some.
  - split_and!; try done.
    split; [done|]. intros (d & Hd & Hnan).
    rewrite first_missing_None in Hf. rewrite (Hf d Hd) in Hnan. done.
Qed.

(** C2 (amended).  If every descriptor whose double is NaN on entry has
    a matching parameter, and the last parameter matching each
    descriptor carries a value that is not NaN, then [set_parameters]
    returns false, raises no error, and every double holds the value of
    the last parameter, in the order of the parse tree, that matches a
    descriptor with that destination; a double no parameter matches keeps
    what it held. *)
Theorem C2_last_match_wins srid proj params st :
  (∀ d, d ∈ params → isnan (st d.2) = true →
        ∃ i, i ∈ Projected_cs.parameters proj ∧ matches i d.1 = true) →
  (∀ d i, d ∈ params →
          last_matching (Projected_cs.parameters proj) params d.2 = Some i →
          isnan (Projection_parameter.value i) = false) →
  ∃ st', set_parameters srid proj params st = (false, st', [])
         ∧ ∀ s, st' s =
                match last_matching (Projected_cs.parameters proj) params s with
                | Some i => Projection_parameter.value i
                | None => st s
                end.
Proof.
  intros Hmand Hnum. exists (scan proj params st). split.
  - unfold set_parameters. rewrite check_first_missing.
    assert (first_missing params (scan proj params st) = None) as ->; [|done].
    apply first_missing_None. intros [c s] Hd. simpl.
    rewrite scan_lookup.
    destruct (last_matching _ params s) as [i|] eqn:Hl.
    + by apply (Hnum (c, s) i).
    + destruct (isnan (st s)) eqn:Hst; [|done].
      destruct (Hmand (c, s) Hd Hst) as (i & Hi & Hm).
      pose proof (last_matching_None _ _ _ i Hl Hi) as Hno.
      by rewrite (slot_matched_intro _ c s i Hd Hm) in Hno.
  - intros s. apply scan_lookup.
Qed.

End extractor_claims.

(** The claim C1 as it is stated fails: a parameter tagged EPSG:9999 and
    named like the canonical name of code 8801 falls, in the words of
    the claim, through to the name test and is assigned; the code leaves
    the double untouched. *)
Lemma C1_epsg_mismatch_not_assigned :
  let i := Projection_parameter.mk "latitude_of_origin" d_9
             (Authority.mk "EPSG" "9999") in
  let st : Member → double := λ _, NAN in
  is_epsg i = true
  ∧ code_matches i 8801 = false
  ∧ name_matches i 8801 = true
  ∧ spec_branch i 8801 = Some By_name
  ∧ branch i 8801 = None
  ∧ assign i st (8801, m_latitude_of_origin) m_latitude_of_origin = NAN
  ∧ Projection_parameter.value i ≠ NAN.
Proof. vm_compute. by split_and!. Qed.

(** The claim C2 as it is stated fails: the only descriptor has a
    matching parameter, whose value is NaN, and the extractor reports the
    parameter as missing. *)
Lemma C2_nan_value_fails :
  let proj := projected_over wgs84 (Authority.mk "EPSG" "9807")
                [Projection_parameter.mk "false_northing" NAN no_authority]
                metre unnamed_axes in
  let params := [(8807, m_false_northing)] in
  let st : Member → double := λ _, NAN in
  (∀ d, d ∈ params →
        ∃ i, i ∈ Projected_cs.parameters proj ∧ matches i d.1 = true)
  ∧ (set_parameters 4326 proj params st).1.1 = true
  ∧ (set_parameters 4326 proj params st).2 =
      [ER_SRS_PROJ_PARAMETER_MISSING 4326 "false_northing" 8807].
Proof.
  split_and!; [|reflexivity..].
  intros d ->%list_elem_of_singleton. eexists. split; [by left|reflexivity].
Qed.

(** An instance of C2: the same parameter twice, first by name and then
    by authority code; the later value stays. *)
Lemma C2_last_match_wins_witness :
  let P := [ Projection_parameter.mk "false_northing" d_zero no_authority;
             Projection_parameter.mk "y0" d_9 (Authority.mk "epsg" "8807") ] in
  let proj := projected_over wgs84 (Authority.mk "EPSG" "9807") P
                metre unnamed_axes in
  let params := [(8807, m_false_northing)] in
  let st : Member → double := λ _, NAN in
  ∃ st', set_parameters 4326 proj params st = (false, st', [])
         ∧ ∀ s, st' s =
                match last_matching P params s with
                | Some i => Projection_parameter.value i
                | None => st s
                end.
Proof.
  intros P proj params st.
  apply (C2_last_match_wins 4326 proj params st).
  - intros d ->%list_elem_of_singleton _. eexists. split; [by left|reflexivity].
  - intros d i ->%list_elem_of_singleton Hl. vm_compute in Hl.
    injection Hl as <-. reflexivity.
Defined.

(** ** The alias table *)

Lemma param_aliases_other c :
  c ≠ 8823 → c ≠ 8824 → at_key param_aliases c = "".
Proof.
  intros H1 H2. unfold at_key, param_aliases, assign_all. cbn [foldl fst snd].
  rewrite lookup_insert_ne by done. rewrite lookup_insert_ne by done.
  by rewrite lookup_empty.
Qed.

Lemma param_aliases_dom : dom param_aliases = ({[8823; 8824]} : gset Z).
Proof.
  unfold param_aliases, assign_all. cbn [foldl fst snd].
  rewrite !dom_insert_L, dom_empty_L. set_solver.
Qed.

(** No canonical name is empty, or is cut to the empty string by a
    leading NUL. *)
Lemma param_names_not_empty c :
  is_Some (param_names !! c) → strcaseeq (at_key param_names c) "" = false.
Proof.
  intros [n Hn]. unfold at_key. rewrite Hn. simpl.
  assert (map_Forall (λ _ n, strcaseeq n "" = false) param_names) as Hall.
  { apply (bool_decide_unpack _). by vm_compute. }
  exact (Hall c n Hn).
Qed.

(** Every descriptor of every variant has a canonical name. *)
Lemma params_of_named k d :
  d ∈ params_of k → is_Some (param_names !! d.1).
Proof.
  revert d. apply Forall_forall.
  destruct k; apply (bool_decide_unpack _); by vm_compute.
Qed.

(** C10.  Aliases are declared for the codes 8823 and 8824 only, and the
    alias of any other code reads as the empty string.  Hence a parsed
    parameter whose authority name is not "EPSG" and whose name is empty
    passes the alias test of every descriptor with another code, matches
    it, and has its value written to the double of every such descriptor
    of the vector; for a descriptor of the catalogue, the assignment
    reached is the one of the alias test. *)
Theorem C10_empty_name_matches_empty_alias :
  dom param_aliases = ({[8823; 8824]} : gset Z)
  ∧ (∀ c, c ≠ 8823 → c ≠ 8824 → at_key param_aliases c = "")
  ∧ ∀ i c,
      c ≠ 8823 → c ≠ 8824 →
      is_epsg i = false → Projection_parameter.name i = "" →
      alias_matches i c = true
      ∧ matches i c = true
      ∧ (∀ k s, (c, s) ∈ params_of k → branch i c = Some By_alias)
      ∧ ∀ {Slot : Type} `{EqDecision Slot} (params : list (Z * Slot))
          (st : Slot → double) (s : Slot),
          (c, s) ∈ params →
          foldl (assign i) st params s = Projection_parameter.value i.
Proof.
  split; [apply param_aliases_dom|]. split; [apply param_aliases_other|].
  intros i c H1 H2 Hauth Hname.
  assert (alias_matches i c = true) as Halias.
  { unfold alias_matches. by rewrite param_aliases_other, Hname. }
  assert (matches i c = true) as Hm.
  { rewrite matches_cases, Hauth, Halias. apply orb_true_r. }
  split_and!; [done..| |].
  - intros k s Hd. unfold branch. rewrite Hauth, Halias.
    unfold name_matches. rewrite Hname.
    by rewrite (param_names_not_empty c (params_of_named k (c, s) Hd)).
  - intros Slot ? params st s Hd. rewrite assign_all_lookup.
    by rewrite (slot_matched_intro params c s i Hd Hm).
Qed.

(** An instance of C10: an unnamed parameter without authority against
    the vector of [Transverse_mercator_srs]. *)
Lemma C10_empty_name_matches_empty_alias_witness :
  let i := Projection_parameter.mk "" d_9 no_authority in
  alias_matches i 8801 = true
  ∧ matches i 8801 = true
  ∧ branch i 8801 = Some By_alias
  ∧ foldl (assign i) (λ _, NAN) (params_of Transverse_mercator_srs)
      m_latitude_of_origin = d_9.
Proof.
  intros i.
  destruct C10_empty_name_matches_empty_alias as (_ & _ & Hc).
  destruct (Hc i 8801) as (Ha & Hm & Hb & Hw); [done..|].
  split_and!; [done..| |].
  - apply (Hb Transverse_mercator_srs m_latitude_of_origin). by left.
  - apply (Hw Member _). by left.
Defined.

(** ** The projection factory *)

Lemma catalogue_codes : catalogue.*1 = catalogued_codes.
Proof. reflexivity. Qed.

Lemma new_projection_catalogue :
  Forall (λ ck, new_projection ck.1 = Projected_srs.new ck.2) catalogue.
Proof. unfold catalogue. repeat constructor. Qed.

Lemma new_projection_default c :
  c ∉ catalogued_codes →
  new_projection c = Projected_srs.new Unknown_projected_srs.
Proof.
  intros Hc. destruct c as [|p|p]; [reflexivity| |reflexivity].
  repeat (destruct p as [p|p|]; try reflexivity).
  all: exfalso; apply Hc; apply (bool_decide_unpack _); by vm_compute.
Qed.

Lemma new_seeded k : Projected_srs_seeded (Projected_srs.new k).
Proof. by repeat split. Qed.

Lemma new_projection_new c :
  new_projection c =
    Projected_srs.new (Projected_srs.kind (new_projection c)).
Proof.
  destruct (decide (c ∈ catalogued_codes)) as [Hc|Hc].
  - apply list_elem_of_In in Hc. vm_compute in Hc.
    repeat (destruct Hc as [<-|Hc]; [reflexivity|]). done.
  - by rewrite new_projection_default.
Qed.

(** C4.  [new_projection] is a function defined on every integer.  For
    each catalogued code it makes a fresh object of the class the
    catalogue gives for it, for 0, for 9999 and for every other integer a
    fresh [Unknown_projected_srs]; in a fresh object every double is NaN
    and no axis has a direction. *)
Theorem C4_new_projection_total :
  catalogue.*1 = catalogued_codes
  ∧ Forall (λ ck, new_projection ck.1 = Projected_srs.new ck.2) catalogue
  ∧ new_projection 0 = Projected_srs.new Unknown_projected_srs
  ∧ new_projection 9999 = Projected_srs.new Unknown_projected_srs
  ∧ (∀ c, c ∉ catalogued_codes →
          new_projection c = Projected_srs.new Unknown_projected_srs)
  ∧ (∀ c, Projected_srs_seeded (new_projection c))
  ∧ (∀ c, ∃ k, new_projection c = Projected_srs.new k).
Proof.
  split_and!.
  - apply catalogue_codes.
  - apply new_projection_catalogue.
  - reflexivity.
  - reflexivity.
  - apply new_projection_default.
  - intros c. rewrite new_projection_new. apply new_seeded.
  - intros c. eexists. apply new_projection_new.
Qed.

(** An instance of C4: a code between two catalogued codes. *)
Lemma C4_new_projection_total_witness :
  new_projection 9814 = Projected_srs.new Unknown_projected_srs
  ∧ new_projection 9807 = Projected_srs.new Transverse_mercator_srs.
Proof.
  destruct C4_new_projection_total as (_ & Hcat & _ & _ & Hdef & _).
  split.
  - apply Hdef. apply (bool_decide_unpack _). by vm_compute.
  - rewrite Forall_forall in Hcat.
    apply (Hcat (9807, Transverse_mercator_srs)).
    apply (bool_decide_unpack _). by vm_compute.
Defined.

(** ** The geographic builder *)

(** The assertions of [Geographic_srs::init] hold exactly on the trees
    that keep the guarantees of the grammar. *)
Lemma Geographic_srs_init_asserted this srid g :
  asserted (Geographic_srs_init this srid g) = Geographic_cs_wf g.
Proof.
  destruct g as [[sph [v dx dy dz ex ey ez ppm]] pm au [av ax ay]].
  unfold Geographic_srs_init, Geographic_cs_wf, Towgs84_wf, Twin_axes_wf,
    DBUG_ASSERT.
  destruct v, av; cbn; rewrite ?andb_true_r, ?andb_assoc; reflexivity.
Qed.

Lemma Geographic_srs_init_failed this srid g :
  failed (Geographic_srs_init this srid g) = false.
Proof.
  unfold Geographic_srs_init.
  destruct (Towgs84.valid _), (Twin_axes.valid _); reflexivity.
Qed.

Lemma Geographic_srs_init_raised this srid g :
  raised (Geographic_srs_init this srid g) = [].
Proof.
  unfold Geographic_srs_init.
  destruct (Towgs84.valid _), (Twin_axes.valid _); reflexivity.
Qed.

(** C9.  On a geographic node that keeps the guarantees of the grammar,
    [Geographic_srs::init] returns false, raises no error, and every
    one of its assertions holds; it returns false on any other node as
    well. *)
Theorem C9_geographic_init_succeeds this srid g :
  Geographic_cs_wf g = true →
  failed (Geographic_srs_init this srid g) = false
  ∧ raised (Geographic_srs_init this srid g) = []
  ∧ asserted (Geographic_srs_init this srid g) = true.
Proof.
  intros Hwf. split_and!.
  - apply Geographic_srs_init_failed.
  - apply Geographic_srs_init_raised.
  - by rewrite Geographic_srs_init_asserted.
Qed.

(** An instance of C9: the geographic CS of WGS 84. *)
Lemma C9_geographic_init_succeeds_witness :
  failed (Geographic_srs_init Geographic_srs.new 4326 wgs84) = false
  ∧ raised (Geographic_srs_init Geographic_srs.new 4326 wgs84) = []
  ∧ asserted (Geographic_srs_init Geographic_srs.new 4326 wgs84) = true.
Proof.
  apply (C9_geographic_init_succeeds Geographic_srs.new 4326 wgs84).
  reflexivity.
Defined.

(** The fields of a built geographic object. *)
Lemma Geographic_srs_init_fields this srid g :
  let o := built (Geographic_srs_init this srid g) in
  Geographic_srs.m_semi_major_axis o =
    Spheroid.semi_major_axis (Datum.spheroid (Geographic_cs.datum g))
  ∧ Geographic_srs.m_inverse_flattening o =
      Spheroid.inverse_flattening (Datum.spheroid (Geographic_cs.datum g))
  ∧ Geographic_srs.m_prime_meridian o =
      Prime_meridian.longitude (Geographic_cs.prime_meridian g)
  ∧ Geographic_srs.m_angular_unit o =
      Unit.conversion_factor (Geographic_cs.angular_unit g)
  ∧ (∀ k, (k < 7)%nat →
       Geographic_srs.m_towgs84 o k =
         let t := Datum.towgs84 (Geographic_cs.datum g) in
         if Towgs84.valid t then
           nth k [Towgs84.dx t; Towgs84.dy t; Towgs84.dz t; Towgs84.ex t;
                  Towgs84.ey t; Towgs84.ez t; Towgs84.ppm t] NAN
         else Geographic_srs.m_towgs84 this k)
  ∧ (∀ k, (k < 2)%nat →
       Geographic_srs.m_axes o k =
         let a := Geographic_cs.axes g in
         if Twin_axes.valid a then
           nth k [Axis.direction (Twin_axes.x a); Axis.direction (Twin_axes.y a)]
             UNSPECIFIED
         else Geographic_srs.m_axes this k).
Proof.
  destruct g as [[sph [v dx dy dz ex ey ez ppm]] pm au [av ax ay]].
  unfold Geographic_srs_init. destruct v, av; cbn; split_and!; try done.
  all: intros k Hk;
    repeat (destruct k as [|k]; [reflexivity|]); lia.
Qed.

(** ** The base builder of the projected classes *)

Lemma Projected_srs_init_failed this srid p :
  failed (Projected_srs_init this srid p) = false.
Proof.
  unfold Projected_srs_init. rewrite Geographic_srs_init_failed.
  by destruct (Twin_axes.valid _).
Qed.

Lemma Projected_srs_init_raised this srid p :
  raised (Projected_srs_init this srid p) = [].
Proof.
  unfold Projected_srs_init. rewrite Geographic_srs_init_raised.
  by destruct (Twin_axes.valid _).
Qed.

Lemma Projected_srs_init_asserted this srid p :
  asserted (Projected_srs_init this srid p) = Projected_cs_wf p.
Proof.
  unfold Projected_srs_init, Projected_cs_wf, Twin_axes_wf, DBUG_ASSERT.
  rewrite Geographic_srs_init_asserted.
  destruct (Twin_axes.valid _); cbn; rewrite ?andb_true_r, ?andb_assoc; reflexivity.
Qed.

Lemma Projected_srs_init_fields this srid p :
  let o := built (Projected_srs_init this srid p) in
  Projected_srs.kind o = Projected_srs.kind this
  ∧ Projected_srs.members o = Projected_srs.members this
  ∧ Projected_srs.m_geographic_srs o =
      built (Geographic_srs_init (Projected_srs.m_geographic_srs this) srid
               (Projected_cs.geographic_cs p))
  ∧ Projected_srs.m_linear_unit o =
      Unit.conversion_factor (Projected_cs.linear_unit p)
  ∧ (∀ k, (k < 2)%nat →
       Projected_srs.m_axes o k =
         let a := Projected_cs.axes p in
         if Twin_axes.valid a then
           nth k [Axis.direction (Twin_axes.x a); Axis.direction (Twin_axes.y a)]
             UNSPECIFIED
         else Projected_srs.m_axes this k).
Proof.
  unfold Projected_srs_init.
  destruct (Twin_axes.valid (Projected_cs.axes p)) eqn:Hv; cbn; rewrite ?Hv;
    split_and!; try done.
  intros k Hk. repeat (destruct k as [|k]; [reflexivity|]). lia.
Qed.

(** ** The derived classes *)

(** The [init] of every class but [Unknown_projected_srs] has the same
    shape. *)
Lemma init_unfold this srid p :
  init this srid p =
    if decide (Projected_srs.kind this = Unknown_projected_srs) then
      Projected_srs_init this srid p
    else
      let b := Projected_srs_init this srid p in
      let r := set_parameters srid p (params_of (Projected_srs.kind this))
                 (Projected_srs.members (built b)) in
      mkBuilt (failed b || r.1.1) (Projected_srs.set_members r.1.2 (built b))
              (raised b ++ r.2) (asserted b).
Proof.
  unfold init.
  destruct (Projected_srs.kind this); cbn [decide decide_rel];
    try reflexivity;
    by destruct (set_parameters _ _ _ _) as [[? ?] ?].
Qed.

(** ** Allocation and the two [create] functions *)

Lemma fresh_not_allocated (h : gmap address Spatial_reference_system) :
  h !! fresh (dom h) = None.
Proof. apply not_elem_of_dom, is_fresh. Qed.

Lemma create_geographic_srs_unfold srid geog σ :
  create_geographic_srs srid geog σ =
    let a := fresh (dom (heap σ)) in
    let b := Geographic_srs_init Geographic_srs.new srid geog in
    (false, Some a,
     mkState (<[a := Geographic_object (built b)]> (heap σ)) (errors σ)
             (asserts σ && Geographic_cs_wf geog)).
Proof.
  unfold create_geographic_srs, new, commit. cbn.
  rewrite Geographic_srs_init_failed, Geographic_srs_init_raised,
    Geographic_srs_init_asserted, insert_insert_eq, app_nil_r.
  reflexivity.
Qed.

Lemma create_projected_srs_unfold srid proj σ :
  create_projected_srs srid proj σ =
    let a := fresh (dom (heap σ)) in
    let b := init (new_projection (method_code proj)) srid proj in
    (failed b, Some a,
     mkState (<[a := Projected_object (built b)]> (heap σ))
             (errors σ ++ raised b) (asserts σ && asserted b)).
Proof.
  unfold create_projected_srs, method_code, new, commit. cbn.
  rewrite insert_insert_eq.
  destruct (strcaseeq "EPSG" _); [|reflexivity].
  by destruct (stoi _).
Qed.

(** What [init] does to an [Unknown_projected_srs]. *)
Lemma init_unknown this srid p :
  Projected_srs.kind this = Unknown_projected_srs →
  init this srid p = Projected_srs_init this srid p.
Proof. intros Hk. rewrite init_unfold. by rewrite decide_True. Qed.


(** The base fields are those set by [Projected_srs::init], whatever the
    class. *)
Lemma init_base this srid p :
  let o := built (init this srid p) in
  let o' := built (Projected_srs_init this srid p) in
  Projected_srs.m_geographic_srs o = Projected_srs.m_geographic_srs o'
  ∧ Projected_srs.m_linear_unit o = Projected_srs.m_linear_unit o'
  ∧ Projected_srs.m_axes o = Projected_srs.m_axes o'
  ∧ asserted (init this srid p) = Projected_cs_wf p.
Proof.
  rewrite init_unfold. case_decide; cbn;
    by rewrite Projected_srs_init_asserted.
Qed.


(** C6.  When the authority name of the projection is not
    case-insensitively "EPSG", or its authority code does not parse as
    an [int], [create_projected_srs] takes the method code to be 0 and
    builds an [Unknown_projected_srs]: it returns false and raises no
    error, and the geographic fields, the linear unit and the axes of
    the object are those of the tree. *)
Theorem C6_unrecognized_authority_is_unknown srid proj σ :
  let authority := Projection.authority (Projected_cs.projection proj) in
  let geog := Projected_cs.geographic_cs proj in
  strcaseeq "EPSG" (Authority.name authority) = false
  ∨ stoi (Authority.code authority) = None →
  let r := create_projected_srs srid proj σ in
  ∃ a o,
    method_code proj = 0
    ∧ r.1.1 = false
    ∧ r.1.2 = Some a
    ∧ heap r.2 !! a = Some (Projected_object o)
    ∧ errors r.2 = errors σ
    ∧ Projected_srs.kind o = Unknown_projected_srs
    ∧ Projected_srs.m_linear_unit o =
        Unit.conversion_factor (Projected_cs.linear_unit proj)
    ∧ (∀ k, (k < 2)%nat →
         Projected_srs.m_axes o k =
           let a := Projected_cs.axes proj in
           if Twin_axes.valid a then
             nth k [Axis.direction (Twin_axes.x a); Axis.direction (Twin_axes.y a)]
               UNSPECIFIED
           else UNSPECIFIED)
    ∧ Projected_srs.m_geographic_srs o =
        built (Geographic_srs_init Geographic_srs.new srid geog)
    ∧ Geographic_srs.m_semi_major_axis (Projected_srs.m_geographic_srs o) =
        Spheroid.semi_major_axis (Datum.spheroid (Geographic_cs.datum geog))
    ∧ Geographic_srs.m_inverse_flattening (Projected_srs.m_geographic_srs o) =
        Spheroid.inverse_flattening (Datum.spheroid (Geographic_cs.datum geog))
    ∧ Geographic_srs.m_prime_meridian (Projected_srs.m_geographic_srs o) =
        Prime_meridian.longitude (Geographic_cs.prime_meridian geog)
    ∧ Geographic_srs.m_angular_unit (Projected_srs.m_geographic_srs o) =
        Unit.conversion_factor (Geographic_cs.angular_unit geog)
    ∧ (∀ k, (k < 7)%nat →
         Geographic_srs.m_towgs84 (Projected_srs.m_geographic_srs o) k =
           let t := Datum.towgs84 (Geographic_cs.datum geog) in
           if Towgs84.valid t then
             nth k [Towgs84.dx t; Towgs84.dy t; Towgs84.dz t; Towgs84.ex t;
                    Towgs84.ey t; Towgs84.ez t; Towgs84.ppm t] NAN
           else NAN)
    ∧ (∀ k, (k < 2)%nat →
         Geographic_srs.m_axes (Projected_srs.m_geographic_srs o) k =
           let a := Geographic_cs.axes geog in
           if Twin_axes.valid a then
             nth k [Axis.direction (Twin_axes.x a); Axis.direction (Twin_axes.y a)]
               UNSPECIFIED
           else UNSPECIFIED).
Proof.
  intros authority geog Hauth r.
  assert (method_code proj = 0) as Hcode.
  { unfold method_code. fold authority.
    destruct Hauth as [-> | ->]; [done|]. by destruct (strcaseeq _ _). }
  subst r. rewrite create_projected_srs_unfold, Hcode. cbn zeta.
  change (new_projection 0) with (Projected_srs.new Unknown_projected_srs).
  rewrite init_unknown by done.
  set (this := Projected_srs.new Unknown_projected_srs).
  destruct (Projected_srs_init_fields this srid proj)
    as (Hk & _ & Hg & Hl & Hax).
  destruct (Geographic_srs_init_fields Geographic_srs.new srid geog)
    as (G1 & G2 & G3 & G4 & G5 & G6).
  eexists _, (built (Projected_srs_init this srid proj)). cbn [fst snd heap errors].
  rewrite Projected_srs_init_failed, Projected_srs_init_raised, app_nil_r,
    lookup_insert_eq.
  split_and!; try done.
  all: by rewrite Hg.
Qed.

(** An instance of C6: the authority ESRI, with a code that is not a
    number. *)
Lemma C6_unrecognized_authority_is_unknown_witness :
  let proj := projected_over wgs84 (Authority.mk "ESRI" "ABC") [] metre
                unnamed_axes in
  ∃ a o,
    (create_projected_srs 4326 proj empty_state).1.1 = false
    ∧ (create_projected_srs 4326 proj empty_state).1.2 = Some a
    ∧ heap (create_projected_srs 4326 proj empty_state).2 !! a
      = Some (Projected_object o)
    ∧ Projected_srs.kind o = Unknown_projected_srs
    ∧ Projected_srs.m_linear_unit o = Unit.conversion_factor metre.
Proof.
  intros proj.
  destruct (C6_unrecognized_authority_is_unknown 4326 proj empty_state)
    as (a & o & _ & H1 & H2 & H3 & _ & H4 & H5 & _).
  - left. reflexivity.
  - exists a, o.
    exact (conj H1 (conj H2 (conj H3 (conj H4 H5)))).
Defined.

(** ** The orchestrator *)

Section orchestrator_facts.

Variable wp_parse_wkt : srid_t → string → bool * Coordinate_system * list Diagnostic.

Implicit Types (srid : srid_t) (text : option string) (result : pointer)
  (σ : State).

Lemma parse_wkt_immediate srid text result σ :
  text = None ∨ text = Some "" →
  parse_wkt wp_parse_wkt srid text result σ =
    (true, result, my_error [ER_SRS_PARSE_ERROR srid] σ).
Proof. by intros [-> | ->]. Qed.

(** The three ways through [parse_wkt] once the text is not empty. *)
Lemma parse_wkt_grammar_failed srid s result σ cs errs :
  s ≠ "" →
  wp_parse_wkt srid s = (true, cs, errs) →
  parse_wkt wp_parse_wkt srid (Some s) result σ =
    (true, result, my_error errs σ).
Proof.
  intros Hs Hwp. destruct s as [|ch s]; [done|]. unfold parse_wkt.
  by rewrite Hwp.
Qed.

Lemma parse_wkt_geographic srid s result σ geog errs :
  s ≠ "" →
  wp_parse_wkt srid s = (false, Geographic geog, errs) →
  parse_wkt wp_parse_wkt srid (Some s) result σ =
    create_geographic_srs srid geog (my_error errs σ).
Proof.
  intros Hs Hwp. destruct s as [|ch s]; [done|]. unfold parse_wkt.
  rewrite Hwp. cbn [negb]. by rewrite create_geographic_srs_unfold.
Qed.

Lemma parse_wkt_projected srid s result σ proj errs :
  s ≠ "" →
  wp_parse_wkt srid s = (false, Projected proj, errs) →
  parse_wkt wp_parse_wkt srid (Some s) result σ =
    let a := fresh (dom (heap σ)) in
    let b := init (new_projection (method_code proj)) srid proj in
    if failed b then
      (true, nullptr,
       mkState (heap σ) ((errors σ ++ errs) ++ raised b) (asserts σ && asserted b))
    else
      (false, Some a,
       mkState (<[a := Projected_object (built b)]> (heap σ))
               ((errors σ ++ errs) ++ raised b) (asserts σ && asserted b)).
Proof.
  intros Hs Hwp. destruct s as [|ch s]; [done|]. unfold parse_wkt.
  rewrite Hwp. cbn [negb]. rewrite create_projected_srs_unfold. cbn.
  destruct (failed _); [|done]. cbn.
  unfold delete_object. cbn.
  by rewrite (delete_insert_id _ _ _ (fresh_not_allocated (heap σ))).
Qed.

End orchestrator_facts.

(** C5 (amended).  Whenever [parse_wkt] returns true the heap is what it
    was on entry: nothing the call has allocated is left.  A null or
    empty text fails at once, with a parse error for the SRID, nothing
    allocated and the slot of the caller not written; a failure of the
    grammar leaves the slot unwritten as well; a failure of the
    construction sets it to the null pointer.  So the slot is null, or
    holds what it held on entry, and a slot that was empty on entry is
    empty on return.  When [parse_wkt] returns false the slot points at
    a live object. *)
Theorem C5_failure_hands_out_no_object
    (wp_parse_wkt : srid_t → string → bool * Coordinate_system * list Diagnostic)
    (srid : srid_t) (text : option string) (result : pointer) (σ : State) :
  let r := parse_wkt wp_parse_wkt srid text result σ in
  (text = None ∨ text = Some "" →
     r = (true, result,
          mkState (heap σ) (errors σ ++ [ER_SRS_PARSE_ERROR srid]) (asserts σ)))
  ∧ (∀ s cs errs,
       text = Some s → s ≠ "" → wp_parse_wkt srid s = (true, cs, errs) →
       r = (true, result, mkState (heap σ) (errors σ ++ errs) (asserts σ)))
  ∧ (∀ s cs errs,
       text = Some s → s ≠ "" → wp_parse_wkt srid s = (false, cs, errs) →
       r.1.1 = true → r.1.2 = nullptr)
  ∧ (r.1.1 = true →
       heap r.2 = heap σ
       ∧ (r.1.2 = nullptr ∨ r.1.2 = result)
       ∧ (result = nullptr → r.1.2 = nullptr))
  ∧ (r.1.1 = false → ∃ a, r.1.2 = Some a ∧ is_Some (heap r.2 !! a)).
Proof.
  intros r. subst r.
  assert (text = None ∨ text = Some "" ∨ ∃ s, text = Some s ∧ s ≠ "")
    as [Ht | [Ht | (s & -> & Hs)]].
  { destruct text as [[|ch s]|]; eauto. }
  1, 2: rewrite parse_wkt_immediate by auto; cbn;
    split_and!; [done | by intros; simplify_eq | by intros; simplify_eq
                | by auto | done].
  split_and!.
  - by intros [? | ?]; simplify_eq.
  - intros s' cs errs [= <-] _ Hwp.
    by rewrite (parse_wkt_grammar_failed _ _ _ _ _ _ _ Hs Hwp).
  - intros s' cs errs [= <-] _ Hwp. destruct cs as [proj | geog].
    + rewrite (parse_wkt_projected _ _ _ _ _ _ _ Hs Hwp). cbn zeta.
      by destruct (failed _).
    + rewrite (parse_wkt_geographic _ _ _ _ _ _ _ Hs Hwp).
      by rewrite create_geographic_srs_unfold.
  - destruct (wp_parse_wkt srid s) as [[[] cs] errs] eqn:Hwp.
    + rewrite (parse_wkt_grammar_failed _ _ _ _ _ _ _ Hs Hwp). cbn. auto.
    + destruct cs as [proj | geog].
      * rewrite (parse_wkt_projected _ _ _ _ _ _ _ Hs Hwp). cbn zeta.
        destruct (failed _); cbn; [auto | done].
      * rewrite (parse_wkt_geographic _ _ _ _ _ _ _ Hs Hwp).
        by rewrite create_geographic_srs_unfold.
  - destruct (wp_parse_wkt srid s) as [[[] cs] errs] eqn:Hwp.
    + by rewrite (parse_wkt_grammar_failed _ _ _ _ _ _ _ Hs Hwp).
    + destruct cs as [proj | geog].
      * rewrite (parse_wkt_projected _ _ _ _ _ _ _ Hs Hwp). cbn zeta.
        destruct (failed _); cbn; [done|].
        intros _. eexists. split; [done|]. by rewrite lookup_insert_eq.
      * rewrite (parse_wkt_geographic _ _ _ _ _ _ _ Hs Hwp).
        rewrite create_geographic_srs_unfold. cbn.
        intros _. eexists. split; [done|]. by rewrite lookup_insert_eq.
Qed.

(** The claim C5 as it is stated fails: on a null text, on an empty text
    and on a text the grammar rejects, [parse_wkt] returns true and the
    slot of the caller still holds the address it held on entry, at
    which an object lives. *)
Lemma C5_slot_not_written :
  let r1 := parse_wkt (grammar_yields (Geographic wgs84)) 4326 None
              (Some 7%nat) one_object in
  let r2 := parse_wkt (grammar_yields (Geographic wgs84)) 4326 (Some "")
              (Some 7%nat) one_object in
  let r3 := parse_wkt grammar_rejects 4326 (Some "GEOGCS") (Some 7%nat)
              one_object in
  (r1.1.1 = true ∧ r1.1.2 = Some 7%nat ∧ r1.1.2 ≠ nullptr
   ∧ is_Some (heap r1.2 !! 7%nat))
  ∧ (r2.1.1 = true ∧ r2.1.2 = Some 7%nat ∧ r2.1.2 ≠ nullptr
     ∧ is_Some (heap r2.2 !! 7%nat))
  ∧ (r3.1.1 = true ∧ r3.1.2 = Some 7%nat ∧ r3.1.2 ≠ nullptr
     ∧ is_Some (heap r3.2 !! 7%nat)).
Proof.
  cbn. split_and!; try done; by eexists.
Qed.

(** An instance of C5: the end-to-end tree without [false_northing]. The
    extractor fails, the object is deleted and the slot, which held an
    address on entry, is null. *)
Lemma C5_failure_hands_out_no_object_witness :
  let proj := projected_over wgs84 (Authority.mk "EPSG" "9807")
                (take 4 utm32_parameters) metre unnamed_axes in
  let r := parse_wkt (grammar_yields (Projected proj)) 4326
             (Some "PROJCS") (Some 7%nat) one_object in
  r.1.1 = true
  ∧ heap r.2 = heap one_object
  ∧ r.1.2 = nullptr
  ∧ errors r.2 = [ER_SRS_PROJ_PARAMETER_MISSING 4326 "false_northing" 8807].
Proof.
  intros proj r.
  assert (r.1.1 = true) as Hfail by reflexivity.
  destruct (C5_failure_hands_out_no_object (grammar_yields (Projected proj))
              4326 (Some "PROJCS") (Some 7%nat) one_object)
    as (_ & _ & Hnull & Hheap & _).
  destruct (Hheap Hfail) as (Hh & _ & _).
  split_and!; [exact Hfail | exact Hh | | reflexivity].
  apply (Hnull "PROJCS" (Projected proj) []);
    [reflexivity | discriminate | reflexivity | exact Hfail].
Defined.

(** ** The invariants of a returned object *)









(** C8.  Let the grammar yield, for a text that is not empty, a
    projected CS whose projection authority is EPSG:9807 and whose
    parameters are latitude_of_origin = 0, central_meridian = 9,
    scale_factor = 0.9996, false_easting = 500000 and false_northing = 0,
    over any geographic CS, linear unit and axes.  Then [parse_wkt]
    returns false and the slot points at a live
    [Transverse_mercator_srs] whose five doubles hold exactly these
    values; no error is raised beyond those of the grammar. *)
Theorem C8_transverse_mercator_end_to_end
    (wp_parse_wkt : srid_t → string → bool * Coordinate_system * list Diagnostic)
    (srid : srid_t) (s : string) (result : pointer) (σ : State)
    (geog : Geographic_cs.t) (linear_unit : Unit.t) (axes : Twin_axes.t)
    (errs : list Diagnostic) :
  s ≠ "" →
  wp_parse_wkt srid s =
    (false,
     Projected (projected_over geog (Authority.mk "EPSG" "9807")
                  utm32_parameters linear_unit axes),
     errs) →
  let r := parse_wkt wp_parse_wkt srid (Some s) result σ in
  ∃ a o,
    r.1.1 = false
    ∧ r.1.2 = Some a
    ∧ heap r.2 !! a = Some (Projected_object o)
    ∧ errors r.2 = (errors σ ++ errs)%list
    ∧ Projected_srs.kind o = Transverse_mercator_srs
    ∧ Projected_srs.members o m_latitude_of_origin = d_zero
    ∧ Projected_srs.members o m_longitude_of_origin = d_9
    ∧ Projected_srs.members o m_scale_factor = d_0_9996
    ∧ Projected_srs.members o m_false_easting = d_500000
    ∧ Projected_srs.members o m_false_northing = d_zero
    ∧ Projected_srs.m_linear_unit o = Unit.conversion_factor linear_unit.
Proof.
  intros Hs Hwp r. subst r.
  rewrite (parse_wkt_projected _ _ _ _ _ _ _ Hs Hwp). cbn zeta.
  set (proj := projected_over geog _ _ _ _).
  change (method_code proj) with 9807.
  change (new_projection 9807) with (Projected_srs.new Transverse_mercator_srs).
  set (this := Projected_srs.new Transverse_mercator_srs).
  assert (init this srid proj =
            mkBuilt false
              (Projected_srs.set_members
                 (scan proj (params_of Transverse_mercator_srs) (λ _, NAN))
                 (built (Projected_srs_init this srid proj)))
              [] (Projected_cs_wf proj)) as Hinit.
  { rewrite init_unfold. cbn [decide decide_rel Projected_srs.kind this
      Projected_srs.new Projection_kind_eq_dec].
    rewrite decide_False by done. cbn zeta.
    destruct (Projected_srs_init_fields this srid proj) as (_ & -> & _).
    rewrite Projected_srs_init_failed, Projected_srs_init_raised,
      Projected_srs_init_asserted.
    reflexivity. }
  rewrite Hinit. cbn [failed built raised].
  destruct (Projected_srs_init_fields this srid proj) as (Hk & _ & _ & Hl & _).
  eexists _, _. cbn [fst snd heap errors].
  split_and!;
    [done | done | apply lookup_insert_eq | by rewrite app_nil_r | ..];
    try reflexivity; done.
Qed.

(** An instance of C8, over the geographic CS of WGS 84. *)
Lemma C8_transverse_mercator_end_to_end_witness :
  let proj := projected_over wgs84 (Authority.mk "EPSG" "9807")
                utm32_parameters metre unnamed_axes in
  let r := parse_wkt (grammar_yields (Projected proj)) 32632 (Some "PROJCS")
             nullptr empty_state in
  ∃ a o,
    r.1.1 = false
    ∧ r.1.2 = Some a
    ∧ heap r.2 !! a = Some (Projected_object o)
    ∧ Projected_srs.kind o = Transverse_mercator_srs
    ∧ Projected_srs.members o m_scale_factor = d_0_9996.
Proof.
  intros proj r.
  destruct (C8_transverse_mercator_end_to_end
              (grammar_yields (Projected proj)) 32632 "PROJCS" nullptr
              empty_state wgs84 metre unnamed_axes [])
    as (a & o & H1 & H2 & H3 & _ & H4 & _ & _ & H5 & _);
    [done | reflexivity |].
  exists a, o.
  exact (conj H1 (conj H2 (conj H3 (conj H4 H5)))).
Defined.

(** * Further properties *)

(** ** Case-insensitive comparison *)

Lemma to_upper_zero c : to_upper c = 0%N ↔ c = NUL.
Proof.
  split; [|by intros ->].
  destruct c as [[] [] [] [] [] [] [] []]; vm_compute; congruence.
Qed.

Lemma my_strcasecmp_zero s t :
  my_strcasecmp s t = 0 ↔
    to_upper (deref s) = to_upper (deref t)
    ∧ (Ascii.eqb (deref s) NUL = false → my_strcasecmp (advance s) (advance t) = 0).
Proof.
  destruct s as [|c s]; cbn [my_strcasecmp deref advance].
  - destruct (N.eqb_spec (to_upper NUL) (to_upper (deref t))) as [Hu|Hu].
    + split; [|done]. by split.
    + split; [lia|]. by intros [? _].
  - destruct (N.eqb_spec (to_upper c) (to_upper (deref t))) as [Hu|Hu].
    + destruct (Ascii.eqb c NUL).
      * split; [|done]. by split.
      * split; [by split|]. intros [_ H]. by apply H.
    + split; [lia|]. by intros [? _].
Qed.

Lemma casefold_unfold t :
  casefold t =
    if Ascii.eqb (deref t) NUL then []
    else to_upper (deref t) :: casefold (advance t).
Proof. by destruct t. Qed.

(** [my_strcasecmp] returns 0 exactly on strings with the same bytes, up
    to case, before their first NUL. *)
Lemma strcaseeq_casefold s t : strcaseeq s t = true ↔ casefold s = casefold t.
Proof.
  unfold strcaseeq. rewrite Z.eqb_eq.
  revert t. induction s as [|c s IH]; intros t;
    rewrite my_strcasecmp_zero, (casefold_unfold t); cbn [deref advance casefold].
  - change (to_upper NUL) with 0%N. change (Ascii.eqb NUL NUL) with true.
    destruct (Ascii.eqb (deref t) NUL) eqn:Hd.
    + apply Ascii.eqb_eq in Hd as ->. by split.
    + split; [|done]. intros [Hu _]. symmetry in Hu.
      apply to_upper_zero in Hu. rewrite Hu in Hd. done.
  - destruct (Ascii.eqb c NUL) eqn:Hc.
    + apply Ascii.eqb_eq in Hc as ->. change (to_upper NUL) with 0%N.
      destruct (Ascii.eqb (deref t) NUL) eqn:Hd.
      * apply Ascii.eqb_eq in Hd as ->. by split.
      * split; [|done]. intros [Hu _]. symmetry in Hu.
        apply to_upper_zero in Hu. rewrite Hu in Hd. done.
    + assert (to_upper c ≠ 0%N) as Hcu.
      { intros Hu%to_upper_zero. subst. done. }
      destruct (Ascii.eqb (deref t) NUL) eqn:Hd.
      * apply Ascii.eqb_eq in Hd as ->. change (to_upper NUL) with 0%N.
        split; [by intros [? _]|done].
      * split.
        -- intros [-> Hrec]. f_equal. apply IH. by apply Hrec.
        -- intros [= Hu Hrec]. split; [done|]. intros _. by apply IH.
Qed.

Lemma strcaseeq_refl s : strcaseeq s s = true.
Proof. by apply strcaseeq_casefold. Qed.

Lemma strcaseeq_sym s t : strcaseeq s t = strcaseeq t s.
Proof.
  apply eq_true_iff_eq. rewrite !strcaseeq_casefold. by split.
Qed.

Lemma strcaseeq_trans s t u :
  strcaseeq s t = true → strcaseeq t u = true → strcaseeq s u = true.
Proof. rewrite !strcaseeq_casefold. congruence. Qed.

(** Comparing against two strings that are equal up to case gives the
    same answer. *)
Lemma strcaseeq_proper s t t' :
  strcaseeq t t' = true → strcaseeq s t = strcaseeq s t'.
Proof.
  intros Ht. apply eq_true_iff_eq. rewrite strcaseeq_casefold in Ht.
  rewrite !strcaseeq_casefold. by rewrite Ht.
Qed.

(** ** The extractor as a whole *)

Section extractor_more.

Context {Slot : Type} `{EqDecision Slot}.

Implicit Types (i : Projection_parameter.t) (st : Slot → double)
  (params : list (Z * Slot)) (s : Slot) (c : Z).

Lemma slot_matched_true params s i :
  slot_matched params s i = true ↔ ∃ c, (c, s) ∈ params ∧ matches i c = true.
Proof.
  unfold slot_matched. rewrite existsb_exists. split.
  - intros ([c s'] & Hin & [Hm Hs]%andb_prop). simpl in *.
    apply bool_decide_eq_true in Hs as ->.
    exists c. split; [by apply list_elem_of_In|done].
  - intros (c & Hin & Hm). exists (c, s). split; [by apply list_elem_of_In|].
    simpl. by rewrite Hm, bool_decide_eq_true_2.
Qed.

Lemma slot_matched_perm params params' s i :
  params ≡ₚ params' → slot_matched params s i = slot_matched params' s i.
Proof.
  intros Hp. apply eq_true_iff_eq. rewrite !slot_matched_true.
  by setoid_rewrite Hp.
Qed.

Lemma find_pointwise {A : Type} (f g : A → bool) (l : list A) :
  (∀ x, x ∈ l → f x = g x) → List.find f l = List.find g l.
Proof.
  induction l as [|x l IH]; intros Hfg; [done|]. simpl.
  rewrite (Hfg x) by left. destruct (g x); [done|].
  apply IH. intros y Hy. apply Hfg. by right.
Qed.

Lemma set_parameters_store srid proj params st :
  (set_parameters srid proj params st).1.2 = scan proj params st.
Proof. unfold set_parameters. by destruct (check _ _ _). Qed.

Lemma set_parameters_check srid proj params st :
  ((set_parameters srid proj params st).1.1, (set_parameters srid proj params st).2)
  = check srid params (scan proj params st).
Proof. unfold set_parameters. by destruct (check _ _ _). Qed.

Lemma check_pointwise srid params st st' :
  (∀ d, d ∈ params → st d.2 = st' d.2) →
  check srid params st = check srid params st'.
Proof.
  induction params as [|d params IH]; intros Heq; [done|]. simpl.
  rewrite (Heq d) by left. destruct (isnan (st' d.2)); [done|].
  apply IH. intros d' Hd'. apply Heq. by right.
Qed.

Lemma check_flag srid params st :
  (check srid params st).1 = existsb (λ d, isnan (st d.2)) params.
Proof.
  induction params as [|d params IH]; [done|]. simpl.
  by destruct (isnan (st d.2)).
Qed.

Lemma set_parameters_flag srid proj params st :
  (set_parameters srid proj params st).1.1 =
    existsb (λ d, isnan (scan proj params st d.2)) params.
Proof.
  rewrite <-(check_flag srid).
  pose proof (set_parameters_check srid proj params st) as Hc.
  by rewrite <-Hc.
Qed.


(** X1.  [set_parameters] writes to the destinations of its descriptors
    only: a double that is the destination of no descriptor keeps its
    value. *)
Theorem set_parameters_frame srid proj params st s :
  s ∉ params.*2 →
  (set_parameters srid proj params st).1.2 s = st s.
Proof.
  intros Hs. rewrite set_parameters_store, scan_lookup.
  destruct (last_matching _ params s) as [i|] eqn:Hl; [|done].
  apply last_matching_Some in Hl as [_ (c & Hin & _)%slot_matched_true].
  destruct Hs. apply list_elem_of_fmap. by exists (c, s).
Qed.

(** X2.  The order of the descriptors in the vector matters neither for
    the doubles left behind nor for the failure flag. *)
Theorem set_parameters_permutation srid proj params params' st :
  params ≡ₚ params' →
  (set_parameters srid proj params st).1.1
  = (set_parameters srid proj params' st).1.1
  ∧ ∀ s, (set_parameters srid proj params st).1.2 s
         = (set_parameters srid proj params' st).1.2 s.
Proof.
  intros Hp.
  assert (∀ s, scan proj params st s = scan proj params' st s) as Hscan.
  { intros s. rewrite !scan_lookup. unfold last_matching.
    rewrite (find_pointwise (slot_matched params s) (slot_matched params' s));
      [done|].
    intros i _. by apply slot_matched_perm. }
  split.
  - rewrite !set_parameters_flag. apply eq_true_iff_eq.
    rewrite !existsb_exists. setoid_rewrite <-list_elem_of_In.
    setoid_rewrite Hscan. by setoid_rewrite Hp.
  - intros s. by rewrite !set_parameters_store.
Qed.

(** X3.  Running the extractor again on the doubles it has left changes
    nothing: the same doubles, the same flag, the same error. *)
Theorem set_parameters_idempotent srid proj params st :
  let r := set_parameters srid proj params st in
  let r' := set_parameters srid proj params r.1.2 in
  r'.1.1 = r.1.1 ∧ r'.2 = r.2 ∧ ∀ s, r'.1.2 s = r.1.2 s.
Proof.
  intros r r'. subst r r'. rewrite !set_parameters_store.
  assert (∀ s, scan proj params (scan proj params st) s = scan proj params st s)
    as Hscan.
  { intros s. rewrite (scan_lookup proj params (scan proj params st)).
    rewrite (scan_lookup proj params st).
    by destruct (last_matching _ params s). }
  pose proof (set_parameters_check srid proj params st) as Hc.
  pose proof (set_parameters_check srid proj params (scan proj params st)) as Hc'.
  rewrite (check_pointwise srid params _ (scan proj params st)) in Hc'
    by (intros d _; apply Hscan).
  rewrite <-Hc in Hc'. injection Hc' as H1 H2. done.
Qed.

End extractor_more.

Section extractor_more2.

Context {Slot : Type} `{EqDecision Slot}.

Implicit Types (i : Projection_parameter.t) (st : Slot → double)
  (params : list (Z * Slot)) (s : Slot) (c : Z).

Lemma find_filter {A : Type} (f g : A → bool) (l : list A) :
  (∀ x, g x = true → f x = true) →
  List.find g (List.filter f l) = List.find g l.
Proof.
  intros Hgf. induction l as [|x l IH]; [done|]. simpl.
  destruct (f x) eqn:Hf; simpl.
  - by rewrite IH.
  - destruct (g x) eqn:Hg; [|done]. apply Hgf in Hg. congruence.
Qed.

Lemma slot_matched_somewhere params s i :
  slot_matched params s i = true → matched_somewhere params i = true.
Proof.
  rewrite slot_matched_true. intros (c & Hin & Hm).
  unfold matched_somewhere. apply existsb_exists.
  exists (c, s). split; [by apply list_elem_of_In|done].
Qed.

(** X4.  Parameters that match no descriptor of the vector are ignored:
    striking them from the tree changes neither the doubles, nor the
    flag, nor the error. *)
Theorem set_parameters_ignores_unmatched srid proj params st :
  let proj' :=
    with_parameters
      (List.filter (matched_somewhere params) (Projected_cs.parameters proj))
      proj in
  let r := set_parameters srid proj params st in
  let r' := set_parameters srid proj' params st in
  r'.1.1 = r.1.1 ∧ r'.2 = r.2 ∧ ∀ s, r'.1.2 s = r.1.2 s.
Proof.
  intros proj' r r'. subst r r'. rewrite !set_parameters_store.
  assert (∀ s, scan proj' params st s = scan proj params st s) as Hscan.
  { intros s. rewrite !scan_lookup. unfold last_matching. subst proj'.
    cbn [with_parameters Projected_cs.parameters].
    rewrite <-filter_rev, find_filter; [done|].
    apply slot_matched_somewhere. }
  pose proof (set_parameters_check srid proj params st) as Hc.
  pose proof (set_parameters_check srid proj' params st) as Hc'.
  rewrite (check_pointwise srid params _ (scan proj params st)) in Hc'
    by (intros d _; apply Hscan).
  rewrite <-Hc in Hc'. injection Hc' as H1 H2. done.
Qed.

(** X5.  A descriptor whose double is NaN on entry and whose destination
    no parameter of the tree matches makes the extractor fail, with one
    error that names a descriptor of the vector. *)
Theorem set_parameters_missing srid proj params st d :
  d ∈ params →
  isnan (st d.2) = true →
  (∀ i c, i ∈ Projected_cs.parameters proj → (c, d.2) ∈ params →
          matches i c = false) →
  let r := set_parameters srid proj params st in
  r.1.1 = true
  ∧ ∃ d0, d0 ∈ params
          ∧ r.2 = [ER_SRS_PROJ_PARAMETER_MISSING srid
                     (at_key param_names d0.1) d0.1].
Proof.
  intros Hd Hnan Hno r. subst r.
  assert (isnan (scan proj params st d.2) = true) as Hafter.
  { rewrite scan_lookup.
    destruct (last_matching _ params d.2) as [i|] eqn:Hl; [|done].
    apply last_matching_Some in Hl as [Hi (c & Hin & Hm)%slot_matched_true].
    by rewrite (Hno i c Hi Hin) in Hm. }
  pose proof (set_parameters_check srid proj params st) as Hc.
  rewrite check_first_missing in Hc.
  destruct (first_missing params (scan proj params st)) as [d0|] eqn:Hf.
  - injection Hc as -> ->. split; [done|]. exists d0. split; [|done].
    apply find_some in Hf as [Hin _]. by apply list_elem_of_In.
  - rewrite first_missing_None in Hf. rewrite (Hf d Hd) in Hafter. done.
Qed.

(** X6.  When no two descriptors share a destination, the double of a
    descriptor ends as the value of the last parameter that matches the
    code of that very descriptor, or as it was. *)
Theorem set_parameters_own_descriptor srid proj params st c s :
  NoDup params.*2 →
  (c, s) ∈ params →
  (set_parameters srid proj params st).1.2 s =
    match List.find (λ i, matches i c) (rev (Projected_cs.parameters proj)) with
    | Some i => Projection_parameter.value i
    | None => st s
    end.
Proof.
  intros Hnd Hin. rewrite set_parameters_store, scan_lookup.
  unfold last_matching.
  rewrite (find_pointwise (slot_matched params s) (λ i, matches i c)); [done|].
  intros i _. apply eq_true_iff_eq. rewrite slot_matched_true. split.
  - intros (c' & Hin' & Hm).
    assert (c' = c) as ->; [|done].
    apply list_elem_of_lookup in Hin as [j Hj], Hin' as [j' Hj'].
    assert (j' = j) as ->.
    { apply (NoDup_lookup _ _ _ s Hnd); rewrite list_lookup_fmap.
      - by rewrite Hj'.
      - by rewrite Hj. }
    congruence.
  - intros Hm. by exists c.
Qed.

End extractor_more2.

(** X7.  Matching does not see the case of a parameter: two parameters
    that differ by the case of their name, authority name and authority
    code only reach the same assignment for every descriptor code. *)
Theorem matching_ignores_case i i' c :
  same_up_to_case i i' = true →
  branch i c = branch i' c ∧ matches i c = matches i' c.
Proof.
  unfold same_up_to_case. intros [[Hn Han]%andb_prop Hac]%andb_prop.
  assert (branch i c = branch i' c) as Hb.
  { unfold branch, is_epsg, code_matches, name_matches, alias_matches.
    by rewrite (strcaseeq_proper _ _ _ Han), (strcaseeq_proper _ _ _ Hac),
      !(strcaseeq_proper _ _ _ Hn). }
  split; [done|]. unfold matches. by rewrite Hb.
Qed.

(** ** The catalogue *)

(** In the vector of every class the codes are pairwise distinct, and so
    are the destinations. *)
Lemma params_of_NoDup k :
  NoDup (params_of k).*1 ∧ NoDup (params_of k).*2.
Proof.
  destruct k; split; apply (bool_decide_unpack _); by vm_compute.
Qed.

Lemma params_of_exclusive k : exclusive (params_of k) = true.
Proof. destruct k; by vm_compute. Qed.

Lemma exclusive_spec params d d' :
  exclusive params = true → d ∈ params → d' ∈ params → d ≠ d' →
  strcaseeq (to_string d.1) (to_string d'.1) = false
  ∧ ∀ l l', l ∈ labels d.1 → l' ∈ labels d'.1 →
            strcaseeq l l' = true → strcaseeq "" l = true.
Proof.
  unfold exclusive. rewrite forallb_forall. intros Hex Hd Hd' Hne.
  apply list_elem_of_In, Hex in Hd. rewrite forallb_forall in Hd.
  apply list_elem_of_In, Hd in Hd'.
  rewrite bool_decide_eq_false_2 in Hd' by done. cbn [orb] in Hd'.
  apply andb_prop in Hd' as [Hcode Hlab]. split.
  - by apply negb_true_iff.
  - intros l l' Hl Hl' Heq. rewrite forallb_forall in Hlab.
    apply list_elem_of_In, Hlab in Hl. rewrite forallb_forall in Hl.
    apply list_elem_of_In, Hl in Hl'. rewrite Heq in Hl'. done.
Qed.

(** A parameter that is not tagged EPSG matches a code through one of
    its labels. *)
Lemma matches_label i c :
  is_epsg i = false → matches i c = true →
  ∃ l, l ∈ labels c ∧ strcaseeq l (Projection_parameter.name i) = true.
Proof.
  intros He. rewrite matches_cases, He. unfold labels.
  intros [Hn|Ha]%orb_prop.
  - exists (at_key param_names c). split; [by left|done].
  - exists (at_key param_aliases c). split; [by right; left|done].
Qed.

(** X8.  In every class of the catalogue, a parameter that is tagged
    EPSG, or whose name does not read as the empty string, matches at
    most one descriptor of the vector: it is written to one member at
    most. *)
Theorem one_parameter_one_descriptor k i d d' :
  is_epsg i = true ∨ strcaseeq "" (Projection_parameter.name i) = false →
  d ∈ params_of k → d' ∈ params_of k →
  matches i d.1 = true → matches i d'.1 = true →
  d = d'.
Proof.
  intros Hi Hd Hd' Hm Hm'.
  destruct (decide (d = d')) as [|Hne]; [done|]. exfalso.
  destruct (exclusive_spec _ d d' (params_of_exclusive k) Hd Hd' Hne)
    as [Hcode Hlab].
  destruct (is_epsg i) eqn:He.
  - rewrite matches_cases, He in Hm, Hm'. unfold code_matches in *.
    rewrite strcaseeq_sym in Hm'.
    by rewrite (strcaseeq_trans _ _ _ Hm Hm') in Hcode.
  - destruct Hi as [|Hname]; [done|].
    apply matches_label in Hm as (l & Hl & Hlx); [|done].
    apply matches_label in Hm' as (l' & Hl' & Hlx'); [|done].
    assert (strcaseeq l l' = true) as Hll.
    { rewrite strcaseeq_sym in Hlx'. by apply (strcaseeq_trans _ _ _ Hlx). }
    pose proof (Hlab l l' Hl Hl' Hll) as Hempty.
    by rewrite (strcaseeq_trans _ _ _ Hempty Hlx) in Hname.
Qed.

(** ** The derived classes as a whole *)

(** The members after [init]: those the extractor has left, from the
    members on entry. *)
Lemma init_members_store this srid p :
  Projected_srs.members (built (init this srid p)) =
    if decide (Projected_srs.kind this = Unknown_projected_srs)
    then Projected_srs.members this
    else (set_parameters srid p (params_of (Projected_srs.kind this))
            (Projected_srs.members this)).1.2.
Proof.
  rewrite init_unfold.
  destruct (Projected_srs_init_fields this srid p) as (_ & Hm & _).
  case_decide; cbn; by rewrite Hm.
Qed.

Lemma init_failed this srid p :
  failed (init this srid p) =
    if decide (Projected_srs.kind this = Unknown_projected_srs)
    then false
    else (set_parameters srid p (params_of (Projected_srs.kind this))
            (Projected_srs.members this)).1.1.
Proof.
  rewrite init_unfold.
  destruct (Projected_srs_init_fields this srid p) as (_ & Hm & _).
  case_decide; cbn; rewrite Projected_srs_init_failed; [done|].
  by rewrite Hm.
Qed.

Lemma init_raised this srid p :
  raised (init this srid p) =
    if decide (Projected_srs.kind this = Unknown_projected_srs)
    then []
    else (set_parameters srid p (params_of (Projected_srs.kind this))
            (Projected_srs.members this)).2.
Proof.
  rewrite init_unfold.
  destruct (Projected_srs_init_fields this srid p) as (_ & Hm & _).
  case_decide; cbn; rewrite Projected_srs_init_raised; [done|].
  by rewrite Hm.
Qed.

(** X9.  The [init] of a projected class returns true exactly when it
    leaves NaN in a double of the vector of the class: the base builder
    never fails, and an [Unknown_projected_srs] never does. *)
Theorem init_fails_iff_nan_left this srid p :
  failed (init this srid p) = true ↔
  ∃ d, d ∈ params_of (Projected_srs.kind this)
       ∧ isnan (Projected_srs.members (built (init this srid p)) d.2) = true.
Proof.
  rewrite init_failed, init_members_store. case_decide as Hk.
  - rewrite Hk. split; [done|]. intros (d & Hd & _). by apply elem_of_nil in Hd.
  - rewrite set_parameters_flag, set_parameters_store, existsb_exists.
    by setoid_rewrite <-list_elem_of_In.
Qed.

(** X10.  In every class, the member of a descriptor ends as the value
    of the last parameter of the tree that matches the code of that
    descriptor; with no such parameter it keeps what it held. *)
Theorem init_member_last_match this srid p c m :
  (c, m) ∈ params_of (Projected_srs.kind this) →
  Projected_srs.members (built (init this srid p)) m =
    match List.find (λ i, matches i c) (rev (Projected_cs.parameters p)) with
    | Some i => Projection_parameter.value i
    | None => Projected_srs.members this m
    end.
Proof.
  intros Hd. rewrite init_members_store. case_decide as Hk.
  - rewrite Hk in Hd. by apply elem_of_nil in Hd.
  - apply set_parameters_own_descriptor; [|done]. apply params_of_NoDup.
Qed.

(** A member that is the destination of no descriptor of the class is
    never written. *)
Theorem init_member_frame this srid p m :
  m ∉ (params_of (Projected_srs.kind this)).*2 →
  Projected_srs.members (built (init this srid p)) m =
    Projected_srs.members this m.
Proof.
  intros Hm. rewrite init_members_store. case_decide; [done|].
  by apply set_parameters_frame.
Qed.

(** X11.  A tree without parameters is rejected by every class but
    [Unknown_projected_srs], when the members are NaN on entry: the error
    names the first descriptor of the class. *)
Theorem init_without_parameters this srid p :
  Projected_srs.kind this ≠ Unknown_projected_srs →
  (∀ m, isnan (Projected_srs.members this m) = true) →
  Projected_cs.parameters p = [] →
  failed (init this srid p) = true
  ∧ ∃ c m rest,
      params_of (Projected_srs.kind this) = (c, m) :: rest
      ∧ raised (init this srid p) =
          [ER_SRS_PROJ_PARAMETER_MISSING srid (at_key param_names c) c].
Proof.
  intros Hk Hnan HP. rewrite init_failed, init_raised.
  rewrite !decide_False by done.
  pose proof (set_parameters_check srid p (params_of (Projected_srs.kind this))
                (Projected_srs.members this)) as Hc.
  unfold scan in Hc. rewrite HP in Hc. cbn [foldl] in Hc.
  destruct (params_of (Projected_srs.kind this)) as [|[c m] rest] eqn:Hv.
  { by destruct (Projected_srs.kind this). }
  cbn [check] in Hc. rewrite Hnan in Hc. injection Hc as -> ->.
  split; [done|]. by exists c, m, rest.
Qed.

(** X12.  The SRID takes no part in the construction: for another SRID
    the flag, the object and the assertions are the same, and the errors
    are the same but for the SRID they carry. *)
Theorem init_srid_only_in_errors this srid srid' p :
  failed (init this srid' p) = failed (init this srid p)
  ∧ built (init this srid' p) = built (init this srid p)
  ∧ asserted (init this srid' p) = asserted (init this srid p)
  ∧ raised (init this srid' p) = with_srid srid' <$> raised (init this srid p).
Proof.
  assert (∀ (params : list (Z * Member)) st,
            (check srid' params st).1 = (check srid params st).1
            ∧ (check srid' params st).2 = with_srid srid' <$> (check srid params st).2)
    as Hcheck.
  { intros params st. induction params as [|d params IH]; [done|]. simpl.
    by destruct (isnan (st d.2)). }
  rewrite !init_unfold.
  change (Projected_srs_init this srid' p) with (Projected_srs_init this srid p).
  case_decide; [by rewrite Projected_srs_init_raised|]. cbn zeta.
  set (b := Projected_srs_init this srid p).
  unfold set_parameters.
  destruct (Hcheck (params_of (Projected_srs.kind this))
              (scan p (params_of (Projected_srs.kind this))
                 (Projected_srs.members (built b)))) as [H1 H2].
  destruct (check srid' _ _) as [res' errs'], (check srid _ _) as [res errs].
  cbn in *. subst. split_and!; try done.
  subst b. by rewrite Projected_srs_init_raised.
Qed.

(** ** The orchestrator as a whole *)

Section orchestrator_more.

Variable wp_parse_wkt : srid_t → string → bool * Coordinate_system * list Diagnostic.

Implicit Types (srid : srid_t) (text : option string) (result : pointer)
  (σ : State).

Lemma text_cases text :
  text = None ∨ text = Some "" ∨ ∃ s, text = Some s ∧ s ≠ "".
Proof. destruct text as [[|ch s]|]; eauto. Qed.

(** X13.  A successful [parse_wkt] allocates one object, at an address
    that was not in use, and leaves every other object of the heap as it
    was; the slot of the caller points at the new object. *)
Theorem parse_wkt_allocates_one srid text result σ :
  let r := parse_wkt wp_parse_wkt srid text result σ in
  r.1.1 = false →
  ∃ a o, heap σ !! a = None
         ∧ r.1.2 = Some a
         ∧ heap r.2 = <[a := o]> (heap σ).
Proof.
  intros r. subst r.
  destruct (text_cases text) as [Ht | [Ht | (s & -> & Hs)]].
  1, 2: by rewrite parse_wkt_immediate by auto.
  destruct (wp_parse_wkt srid s) as [[[] cs] errs] eqn:Hwp.
  - by rewrite (parse_wkt_grammar_failed _ _ _ _ _ _ _ Hs Hwp).
  - destruct cs as [proj | geog].
    + rewrite (parse_wkt_projected _ _ _ _ _ _ _ Hs Hwp). cbn zeta.
      destruct (failed _); cbn; [done|]. intros _.
      eexists _, _. split; [apply fresh_not_allocated|done].
    + rewrite (parse_wkt_geographic _ _ _ _ _ _ _ Hs Hwp).
      rewrite create_geographic_srs_unfold. cbn. intros _.
      eexists _, _. split; [apply fresh_not_allocated|done].
Qed.

(** X14.  Once the grammar has yielded a tree, the assertions met during
    [parse_wkt] all hold exactly when the tree keeps the guarantees of
    the grammar, whatever the parameters and whether or not the
    construction succeeds. *)
Theorem parse_wkt_asserts srid s result σ cs errs :
  s ≠ "" →
  wp_parse_wkt srid s = (false, cs, errs) →
  asserts (parse_wkt wp_parse_wkt srid (Some s) result σ).2
  = asserts σ && Coordinate_system_wf cs.
Proof.
  intros Hs Hwp. destruct cs as [proj | geog].
  - rewrite (parse_wkt_projected _ _ _ _ _ _ _ Hs Hwp). cbn zeta.
    destruct (init_base (new_projection (method_code proj)) srid proj)
      as (_ & _ & _ & Ha).
    by destruct (failed _); cbn; rewrite Ha.
  - rewrite (parse_wkt_geographic _ _ _ _ _ _ _ Hs Hwp).
    by rewrite create_geographic_srs_unfold.
Qed.

(** X15.  A geographic tree never makes [parse_wkt] fail: the flag is
    false, no error is raised beyond those of the grammar, and the
    object holds the ellipsoid, the prime meridian and the angular unit
    of the tree. *)
Theorem parse_wkt_geographic_succeeds srid s result σ geog errs :
  s ≠ "" →
  wp_parse_wkt srid s = (false, Geographic geog, errs) →
  let r := parse_wkt wp_parse_wkt srid (Some s) result σ in
  ∃ a o,
    r.1.1 = false
    ∧ r.1.2 = Some a
    ∧ heap r.2 !! a = Some (Geographic_object o)
    ∧ errors r.2 = (errors σ ++ errs)%list
    ∧ Geographic_srs.m_semi_major_axis o =
        Spheroid.semi_major_axis (Datum.spheroid (Geographic_cs.datum geog))
    ∧ Geographic_srs.m_inverse_flattening o =
        Spheroid.inverse_flattening (Datum.spheroid (Geographic_cs.datum geog))
    ∧ Geographic_srs.m_prime_meridian o =
        Prime_meridian.longitude (Geographic_cs.prime_meridian geog)
    ∧ Geographic_srs.m_angular_unit o =
        Unit.conversion_factor (Geographic_cs.angular_unit geog).
Proof.
  intros Hs Hwp r. subst r.
  rewrite (parse_wkt_geographic _ _ _ _ _ _ _ Hs Hwp).
  rewrite create_geographic_srs_unfold. cbn.
  destruct (Geographic_srs_init_fields Geographic_srs.new srid geog)
    as (G1 & G2 & G3 & G4 & _).
  eexists _, _. split_and!; [done|done|apply lookup_insert_eq|done..].
Qed.

(** X16.  The errors of a call: those present on entry, then those of
    the grammar, then at most one of [parse_wkt] and the builders.  The
    flag is true exactly when the grammar has failed or that last error
    has been raised. *)
Theorem parse_wkt_errors srid s result σ res cs errs :
  s ≠ "" →
  wp_parse_wkt srid s = (res, cs, errs) →
  let r := parse_wkt wp_parse_wkt srid (Some s) result σ in
  ∃ own : list Diagnostic,
    errors r.2 = ((errors σ ++ errs) ++ own)%list
    ∧ (length own ≤ 1)%nat
    ∧ r.1.1 = res || bool_decide (own ≠ [])
    ∧ (res = true → own = []).
Proof.
  intros Hs Hwp r. subst r. destruct res.
  - rewrite (parse_wkt_grammar_failed _ _ _ _ _ _ _ Hs Hwp).
    exists []. cbn. rewrite app_nil_r.
    split_and!; [done|lia| |done].
    reflexivity.
  - destruct cs as [proj | geog].
    + rewrite (parse_wkt_projected _ _ _ _ _ _ _ Hs Hwp). cbn zeta.
      set (this := new_projection (method_code proj)).
      exists (raised (init this srid proj)).
      assert (failed (init this srid proj)
              = bool_decide (raised (init this srid proj) ≠ [])
              ∧ (length (raised (init this srid proj)) ≤ 1)%nat) as [Hf Hlen].
      { rewrite init_failed, init_raised. case_decide.
        { split; [|cbn; lia]. symmetry. apply bool_decide_eq_false_2. by intros []. }
        pose proof (set_parameters_check srid proj
                      (params_of (Projected_srs.kind this))
                      (Projected_srs.members this)) as Hc.
        rewrite check_first_missing in Hc.
        destruct (first_missing _ _); injection Hc as -> ->.
        - split; [|cbn; lia]. symmetry. by apply bool_decide_eq_true_2.
        - split; [|cbn; lia]. symmetry. apply bool_decide_eq_false_2. by intros []. }
      rewrite Hf. case_bool_decide; cbn; split_and!; done.
    + rewrite (parse_wkt_geographic _ _ _ _ _ _ _ Hs Hwp).
      rewrite create_geographic_srs_unfold. cbn.
      exists []. rewrite app_nil_r. split_and!; [done|cbn; lia| |done].
      symmetry. apply bool_decide_eq_false_2. by intros [].
Qed.

(** X17.  A projected tree whose method code is not in the catalogue
    never makes [parse_wkt] fail, whatever its parameters: the object is
    an [Unknown_projected_srs], none of its kind-specific members is
    written, and no error is raised beyond those of the grammar. *)
Theorem parse_wkt_unknown_method srid s result σ proj errs :
  s ≠ "" →
  wp_parse_wkt srid s = (false, Projected proj, errs) →
  method_code proj ∉ catalogued_codes →
  let r := parse_wkt wp_parse_wkt srid (Some s) result σ in
  ∃ a o,
    r.1.1 = false
    ∧ r.1.2 = Some a
    ∧ heap r.2 !! a = Some (Projected_object o)
    ∧ errors r.2 = (errors σ ++ errs)%list
    ∧ Projected_srs.kind o = Unknown_projected_srs
    ∧ Projected_srs.members o
      = Projected_srs.members (Projected_srs.new Unknown_projected_srs)
    ∧ Projected_srs.m_linear_unit o =
        Unit.conversion_factor (Projected_cs.linear_unit proj).
Proof.
  intros Hs Hwp Hcode r. subst r.
  rewrite (parse_wkt_projected _ _ _ _ _ _ _ Hs Hwp). cbn zeta.
  rewrite (new_projection_default _ Hcode).
  set (this := Projected_srs.new Unknown_projected_srs).
  rewrite (init_unknown this srid proj) by done.
  rewrite Projected_srs_init_failed, Projected_srs_init_raised, app_nil_r.
  destruct (Projected_srs_init_fields this srid proj)
    as (Hk & Hm & _ & Hl & _).
  eexists _, _. cbn [fst snd heap errors].
  split_and!; [done|done|apply lookup_insert_eq|done..].
Qed.

End orchestrator_more.

(** ** Decimal numerals *)

Lemma pretty_N_char_plain d : is_plain (pretty_N_char d) = true.
Proof. unfold pretty_N_char. by repeat case_match. Qed.

Lemma pretty_N_char_value d :
  (d < 10)%N → digit_value (pretty_N_char d) = Some (Z.of_N d).
Proof.
  intros Hd.
  assert (d = 0 ∨ d = 1 ∨ d = 2 ∨ d = 3 ∨ d = 4 ∨ d = 5 ∨ d = 6 ∨ d = 7
          ∨ d = 8 ∨ d = 9)%N as Hcases by lia.
  repeat (destruct Hcases as [->|Hcases]; [reflexivity|]). by subst.
Qed.

Lemma pretty_N_go_plain x s : plain s = true → plain (pretty_N_go x s) = true.
Proof.
  revert s. induction (N.lt_wf_0 x) as [x _ IH]; intros s Hs.
  assert (x = 0 ∨ 0 < x)%N as [->|Hx] by lia.
  - by rewrite pretty_N_go_0.
  - rewrite pretty_N_go_step by done. apply IH.
    + by apply N.div_lt.
    + cbn. by rewrite pretty_N_char_plain.
Qed.

Lemma to_string_Zpos p : to_string (Z.pos p) = pretty_N_go (N.pos p) "".
Proof.
  unfold to_string, pretty, pretty_Z, pretty, pretty_positive, pretty, pretty_N.
  by rewrite decide_False.
Qed.

Lemma to_string_Zneg p :
  to_string (Z.neg p) = String "-" (pretty_N_go (N.pos p) "").
Proof.
  unfold to_string, pretty, pretty_Z, pretty, pretty_positive, pretty, pretty_N.
  by rewrite decide_False.
Qed.

Lemma to_string_plain n : plain (to_string n) = true.
Proof.
  destruct n as [|p|p]; [done|..].
  - rewrite to_string_Zpos. by apply pretty_N_go_plain.
  - rewrite to_string_Zneg. cbn. by apply pretty_N_go_plain.
Qed.

(** A plain byte is its own upper case, which no other byte has. *)
Lemma is_plain_to_upper d e :
  is_plain d = true → to_upper e = to_upper d → e = d.
Proof.
  intros Hd He.
  assert (to_upper d = N_of_ascii d ∧ (N_of_ascii d = 45 ∨ 48 ≤ N_of_ascii d ≤ 57)%N)
    as [Hud Hrange].
  { unfold is_plain, to_upper in *. cbn zeta in *.
    apply orb_prop in Hd as [Hd%N.eqb_eq|[H1%N.leb_le H2%N.leb_le]%andb_prop].
    - rewrite Hd. by split; [|left].
    - split; [|right; lia].
      destruct (N.leb_spec 97 (N_of_ascii d)); [lia|]. cbn.
      destruct (N.leb_spec 224 (N_of_ascii d)); [lia|]. done. }
  rewrite Hud in He.
  assert (N_of_ascii e = N_of_ascii d) as Heq.
  { unfold to_upper in He. cbn zeta in He.
    destruct (N.leb_spec 97 (N_of_ascii e)), (N.leb_spec (N_of_ascii e) 122),
      (N.leb_spec 224 (N_of_ascii e)), (N.leb_spec (N_of_ascii e) 254),
      (N.eqb_spec (N_of_ascii e) 247); cbn in He; lia. }
  rewrite <-(ascii_N_embedding e), <-(ascii_N_embedding d). by rewrite Heq.
Qed.

Lemma is_plain_not_NUL d : is_plain d = true → Ascii.eqb d NUL = false.
Proof. intros Hd. apply Ascii.eqb_neq. by intros ->. Qed.

Lemma c_str_unfold t :
  c_str t = if Ascii.eqb (deref t) NUL then "" else String (deref t) (c_str (advance t)).
Proof. by destruct t. Qed.

(** Against a plain string the comparison is an equality of C strings. *)
Lemma plain_casefold s t :
  plain s = true → casefold s = casefold t ↔ c_str t = s.
Proof.
  revert t. induction s as [|d s IH]; intros t Hs;
    rewrite (casefold_unfold t), (c_str_unfold t); cbn [casefold].
  - by destruct (Ascii.eqb (deref t) NUL).
  - cbn in Hs. apply andb_prop in Hs as [Hd Hs].
    rewrite (is_plain_not_NUL d Hd).
    destruct (Ascii.eqb (deref t) NUL); [done|]. split.
    + intros [= Hu Hrest]. symmetry in Hu.
      apply (is_plain_to_upper d _ Hd) in Hu. rewrite Hu. f_equal.
      by apply IH.
    + intros [= -> Hrest]. f_equal. by apply IH.
Qed.

(** X18.  The authority code of a parameter tagged EPSG is compared as
    text: it matches a descriptor exactly when, read up to its first
    NUL, it is the decimal form of the code of the descriptor, so that
    a padded or signed spelling does not match and one parameter matches
    one code at most. *)
Theorem code_matches_exactly i c :
  (code_matches i c = true ↔
     c_str (Authority.code (Projection_parameter.authority i)) = to_string c)
  ∧ ∀ c', code_matches i c = true → code_matches i c' = true → c = c'.
Proof.
  assert (∀ c0, code_matches i c0 = true ↔
            c_str (Authority.code (Projection_parameter.authority i))
            = to_string c0) as Hexact.
  { intros c0. unfold code_matches.
    rewrite strcaseeq_casefold. apply plain_casefold, to_string_plain. }
  split; [apply Hexact|].
  intros c'. rewrite !Hexact. intros -> Heq.
  by apply (inj pretty) in Heq.
Qed.

Lemma pretty_N_go_append x s rest :
  pretty_N_go x s +:+ rest = pretty_N_go x (s +:+ rest).
Proof.
  revert s. induction (N.lt_wf_0 x) as [x _ IH]; intros s.
  assert (x = 0 ∨ 0 < x)%N as [->|Hx] by lia.
  - by rewrite !pretty_N_go_0.
  - rewrite (pretty_N_go_step x s), (pretty_N_go_step x (s +:+ rest)) by done.
    by rewrite IH by (by apply N.div_lt).
Qed.

Lemma pretty_N_go_head x s :
  (0 < x)%N →
  ∃ d rest, (d < 10)%N ∧ pretty_N_go x s = String (pretty_N_char d) rest.
Proof.
  revert s. induction (N.lt_wf_0 x) as [x _ IH]; intros s Hx.
  rewrite pretty_N_go_step by done.
  destruct (N.eq_0_gt_0_cases (x `div` 10)) as [H0|Hdiv].
  - rewrite H0, pretty_N_go_0. eexists _, _. split; [|done].
    by apply N.mod_lt.
  - apply IH; [by apply N.div_lt|done].
Qed.

Lemma read_digits_stop rest acc :
  digit_value (deref rest) = None → read_digits rest acc true = Some acc.
Proof. destruct rest as [|c rest]; [done|]. cbn. by intros ->. Qed.

Lemma read_digits_pretty x s seen :
  (0 < x)%N →
  read_digits (pretty_N_go x s) 0 seen = read_digits s (Z.of_N x) true.
Proof.
  revert s seen. induction (N.lt_wf_0 x) as [x _ IH]; intros s seen Hx.
  rewrite pretty_N_go_step by done.
  pose proof (N.div_mod x 10) as Hdm.
  assert (x `mod` 10 < 10)%N as Hmod by (by apply N.mod_lt).
  destruct (N.eq_0_gt_0_cases (x `div` 10)) as [H0|Hdiv].
  - rewrite H0, pretty_N_go_0. cbn [read_digits].
    rewrite pretty_N_char_value by done. f_equal. lia.
  - rewrite IH by (done || by apply N.div_lt). cbn [read_digits].
    rewrite pretty_N_char_value by done. f_equal. lia.
Qed.

Lemma skip_spaces_blank ws s : blank ws = true → skip_spaces (ws +:+ s) = skip_spaces s.
Proof.
  induction ws as [|c ws IH]; [done|].
  change (String c ws +:+ s) with (String c (ws +:+ s)). cbn [blank skip_spaces].
  intros [-> Hws]%andb_prop. by apply IH.
Qed.

(** What [std::stoi] makes of a digit string that [pretty_N_go] has
    written, followed by something that is not a digit. *)
Lemma stoi_digits x rest :
  (0 < x)%N → digit_value (deref rest) = None →
  skip_spaces (pretty_N_go x rest) = pretty_N_go x rest
  ∧ read_digits (pretty_N_go x rest) 0 false = Some (Z.of_N x)
  ∧ ∃ d tail, (d < 10)%N ∧ pretty_N_go x rest = String (pretty_N_char d) tail.
Proof.
  intros Hx Hrest.
  destruct (pretty_N_go_head x rest Hx) as (d & tail & Hd & Heq).
  split_and!.
  - rewrite Heq. cbn.
    assert (isspace (pretty_N_char d) = false) as ->; [|done].
    unfold pretty_N_char. by repeat case_match.
  - rewrite read_digits_pretty by done. by apply read_digits_stop.
  - by exists d, tail.
Qed.

Lemma stoi_unsigned d tail :
  (d < 10)%N →
  stoi (String (pretty_N_char d) tail) =
    match read_digits (String (pretty_N_char d) tail) 0 false with
    | Some n => if (INT_MIN <=? n) && (n <=? INT_MAX) then Some n else None
    | None => None
    end.
Proof.
  intros Hd.
  assert (d = 0 ∨ d = 1 ∨ d = 2 ∨ d = 3 ∨ d = 4 ∨ d = 5 ∨ d = 6 ∨ d = 7
          ∨ d = 8 ∨ d = 9)%N as Hcases by lia.
  repeat (destruct Hcases as [->|Hcases]; [reflexivity|]). by subst.
Qed.

Lemma stoi_negative s :
  stoi (String "-" s) =
    match read_digits s 0 false with
    | Some n => if (INT_MIN <=? - n) && (- n <=? INT_MAX) then Some (- n) else None
    | None => None
    end.
Proof. reflexivity. Qed.

Lemma stoi_skips ws s : blank ws = true → stoi (ws +:+ s) = stoi s.
Proof.
  intros Hws. unfold stoi. rewrite skip_spaces_blank by done. done.
Qed.

(** [std::stoi] reads back what [std::to_string] has written for an
    [int], after white space and before anything that is not a digit. *)
Lemma stoi_to_string ws n rest :
  blank ws = true →
  digit_value (deref rest) = None →
  INT_MIN ≤ n ≤ INT_MAX →
  stoi (ws +:+ to_string n +:+ rest) = Some n.
Proof.
  intros Hws Hrest [Hmin%Z.leb_le Hmax%Z.leb_le]. rewrite stoi_skips by done.
  destruct n as [|p|p].
  - change (to_string 0 +:+ rest) with (String (pretty_N_char 0) rest).
    rewrite stoi_unsigned by done.
    change (read_digits (String (pretty_N_char 0) rest) 0 false)
      with (read_digits rest 0 true).
    by rewrite read_digits_stop.
  - rewrite to_string_Zpos, pretty_N_go_append.
    change ("" +:+ rest) with rest.
    destruct (stoi_digits (N.pos p) rest) as (_ & Hread & d & tail & Hd & Heq);
      [lia|done|].
    rewrite Heq in Hread |- *. rewrite stoi_unsigned, Hread by done.
    change (Z.of_N (N.pos p)) with (Z.pos p). by rewrite Hmin, Hmax.
  - rewrite to_string_Zneg.
    change (String "-" (pretty_N_go (N.pos p) "") +:+ rest)
      with (String "-" (pretty_N_go (N.pos p) "" +:+ rest)).
    rewrite pretty_N_go_append. change ("" +:+ rest) with rest.
    destruct (stoi_digits (N.pos p) rest) as (_ & Hread & _); [lia|done|].
    rewrite stoi_negative, Hread.
    change (- Z.of_N (N.pos p)) with (Z.neg p). by rewrite Hmin, Hmax.
Qed.

(** X19.  The method code of a projection tagged EPSG is read as a
    number: white space before the decimal form of an [int] and anything
    that is not a digit after it are passed over, and the code handed to
    the factory is that [int]. *)
Theorem method_code_reads_decimal proj ws n rest :
  let authority := Projection.authority (Projected_cs.projection proj) in
  strcaseeq "EPSG" (Authority.name authority) = true →
  Authority.code authority = ws +:+ to_string n +:+ rest →
  blank ws = true →
  digit_value (deref rest) = None →
  INT_MIN ≤ n ≤ INT_MAX →
  method_code proj = n.
Proof.
  intros authority Hname Hcode Hws Hrest Hn. unfold method_code.
  fold authority. rewrite Hname, Hcode. by rewrite stoi_to_string.
Qed.

(** ** Instances *)

(** An instance of X1: the azimuth is no member of the vector of
    [Transverse_mercator_srs]. *)
Lemma set_parameters_frame_witness :
  (set_parameters 32632 utm32 (params_of Transverse_mercator_srs) all_nan).1.2
    m_azimuth = NAN.
Proof.
  apply (set_parameters_frame 32632 utm32 (params_of Transverse_mercator_srs)
           all_nan m_azimuth).
  apply (bool_decide_unpack _). vm_compute. exact I.
Defined.

(** An instance of X2: two descriptors, swapped. *)
Lemma set_parameters_permutation_witness :
  let params := [(8806, m_false_easting); (8807, m_false_northing)] in
  let params' := [(8807, m_false_northing); (8806, m_false_easting)] in
  (set_parameters 32632 utm32 params all_nan).1.1
  = (set_parameters 32632 utm32 params' all_nan).1.1
  ∧ ∀ s, (set_parameters 32632 utm32 params all_nan).1.2 s
         = (set_parameters 32632 utm32 params' all_nan).1.2 s.
Proof.
  intros params params'.
  apply (set_parameters_permutation 32632 utm32 params params' all_nan).
  apply perm_swap.
Defined.

(** An instance of X5: the end-to-end tree without [false_northing]. *)
Lemma set_parameters_missing_witness :
  let proj := with_parameters (take 4 utm32_parameters) utm32 in
  let r := set_parameters 32632 proj (params_of Transverse_mercator_srs) all_nan in
  r.1.1 = true
  ∧ ∃ d0, d0 ∈ params_of Transverse_mercator_srs
          ∧ r.2 = [ER_SRS_PROJ_PARAMETER_MISSING 32632
                     (at_key param_names d0.1) d0.1].
Proof.
  intros proj.
  apply (set_parameters_missing 32632 proj (params_of Transverse_mercator_srs)
           all_nan (8807, m_false_northing)).
  - apply (bool_decide_unpack _). vm_compute. exact I.
  - reflexivity.
  - intros i c Hi Hc.
    assert (c = 8807) as ->.
    { apply list_elem_of_In in Hc. simpl in Hc.
      repeat (destruct Hc as [Hc|Hc]; [by inversion Hc|]). destruct Hc. }
    apply list_elem_of_In in Hi. simpl in Hi.
    repeat (destruct Hi as [<-|Hi]; [reflexivity|]). destruct Hi.
Defined.

(** An instance of X6: the scale factor of the end-to-end tree. *)
Lemma set_parameters_own_descriptor_witness :
  (set_parameters 32632 utm32 (params_of Transverse_mercator_srs) all_nan).1.2
    m_scale_factor = d_0_9996.
Proof.
  apply (set_parameters_own_descriptor 32632 utm32
           (params_of Transverse_mercator_srs) all_nan 8805 m_scale_factor).
  - apply (bool_decide_unpack _). vm_compute. exact I.
  - apply (bool_decide_unpack _). vm_compute. exact I.
Defined.

(** An instance of X7: two spellings of one parameter. *)
Lemma matching_ignores_case_witness :
  let i := Projection_parameter.mk "False_Northing" d_zero (Authority.mk "epsg" "8807") in
  let i' := Projection_parameter.mk "FALSE_NORTHING" d_9 (Authority.mk "EPSG" "8807") in
  branch i 8807 = branch i' 8807 ∧ matches i 8807 = matches i' 8807.
Proof.
  intros i i'. apply (matching_ignores_case i i' 8807). reflexivity.
Defined.

(** An instance of X8: the azimuth of [Hotine_oblique_mercator_variant_a_srs]. *)
Lemma one_parameter_one_descriptor_witness :
  let i := Projection_parameter.mk "Azimuth" d_9 no_authority in
  ((8813, m_azimuth) : Z * Member) = (8813, m_azimuth).
Proof.
  intros i.
  apply (one_parameter_one_descriptor Hotine_oblique_mercator_variant_a_srs i
           (8813, m_azimuth) (8813, m_azimuth)).
  - right. reflexivity.
  - apply (bool_decide_unpack _). vm_compute. exact I.
  - apply (bool_decide_unpack _). vm_compute. exact I.
  - reflexivity.
  - reflexivity.
Defined.

(** An instance of X10: the central meridian of the end-to-end tree. *)
Lemma init_member_last_match_witness :
  Projected_srs.members
    (built (init (Projected_srs.new Transverse_mercator_srs) 32632 utm32))
    m_longitude_of_origin = d_9.
Proof.
  apply (init_member_last_match (Projected_srs.new Transverse_mercator_srs)
           32632 utm32 8802 m_longitude_of_origin).
  apply (bool_decide_unpack _). vm_compute. exact I.
Defined.

(** An instance of X11: [Transverse_mercator_srs] without parameters. *)
Lemma init_without_parameters_witness :
  let p := with_parameters [] utm32 in
  let this := Projected_srs.new Transverse_mercator_srs in
  failed (init this 32632 p) = true
  ∧ ∃ c m rest,
      params_of Transverse_mercator_srs = (c, m) :: rest
      ∧ raised (init this 32632 p) =
          [ER_SRS_PROJ_PARAMETER_MISSING 32632 (at_key param_names c) c].
Proof.
  intros p this.
  apply (init_without_parameters this 32632 p).
  - discriminate.
  - reflexivity.
  - reflexivity.
Defined.

(** An instance of X13: the end-to-end tree on an empty heap. *)
Lemma parse_wkt_allocates_one_witness :
  let r := parse_wkt (grammar_yields (Projected utm32)) 32632 (Some "PROJCS")
             nullptr empty_state in
  ∃ a o, heap empty_state !! a = None
         ∧ r.1.2 = Some a
         ∧ heap r.2 = <[a := o]> (heap empty_state).
Proof.
  intros r.
  apply (parse_wkt_allocates_one (grammar_yields (Projected utm32)) 32632
           (Some "PROJCS") nullptr empty_state).
  reflexivity.
Defined.

(** An instance of X14: the end-to-end tree. *)
Lemma parse_wkt_asserts_witness :
  asserts (parse_wkt (grammar_yields (Projected utm32)) 32632 (Some "PROJCS")
             nullptr empty_state).2
  = asserts empty_state && Coordinate_system_wf (Projected utm32).
Proof.
  apply (parse_wkt_asserts (grammar_yields (Projected utm32)) 32632 "PROJCS"
           nullptr empty_state (Projected utm32) []).
  - discriminate.
  - reflexivity.
Defined.

(** An instance of X15: the geographic CS of WGS 84. *)
Lemma parse_wkt_geographic_succeeds_witness :
  let r := parse_wkt (grammar_yields (Geographic wgs84)) 4326 (Some "GEOGCS")
             nullptr empty_state in
  ∃ a o,
    r.1.1 = false
    ∧ r.1.2 = Some a
    ∧ heap r.2 !! a = Some (Geographic_object o)
    ∧ Geographic_srs.m_semi_major_axis o = S754_finite false 6378137 0.
Proof.
  intros r.
  destruct (parse_wkt_geographic_succeeds (grammar_yields (Geographic wgs84))
              4326 "GEOGCS" nullptr empty_state wgs84 [])
    as (a & o & H1 & H2 & H3 & _ & H4 & _); [discriminate | reflexivity |].
  exists a, o. exact (conj H1 (conj H2 (conj H3 H4))).
Defined.

(** An instance of X16: the end-to-end tree without [false_northing]. *)
Lemma parse_wkt_errors_witness :
  let proj := with_parameters (take 4 utm32_parameters) utm32 in
  let r := parse_wkt (grammar_yields (Projected proj)) 32632 (Some "PROJCS")
             nullptr empty_state in
  ∃ own : list Diagnostic,
    errors r.2 = ((errors empty_state ++ []) ++ own)%list
    ∧ (length own ≤ 1)%nat
    ∧ r.1.1 = false || bool_decide (own ≠ [])
    ∧ (false = true → own = []).
Proof.
  intros proj r.
  apply (parse_wkt_errors (grammar_yields (Projected proj)) 32632 "PROJCS"
           nullptr empty_state false (Projected proj) []).
  - discriminate.
  - reflexivity.
Defined.

(** An instance of X17: the method EPSG:9999. *)
Lemma parse_wkt_unknown_method_witness :
  let proj := projected_over wgs84 (Authority.mk "EPSG" "9999")
                utm32_parameters metre unnamed_axes in
  let r := parse_wkt (grammar_yields (Projected proj)) 32632 (Some "PROJCS")
             nullptr empty_state in
  ∃ a o,
    r.1.1 = false
    ∧ r.1.2 = Some a
    ∧ heap r.2 !! a = Some (Projected_object o)
    ∧ Projected_srs.kind o = Unknown_projected_srs.
Proof.
  intros proj r.
  destruct (parse_wkt_unknown_method (grammar_yields (Projected proj)) 32632
              "PROJCS" nullptr empty_state proj [])
    as (a & o & H1 & H2 & H3 & _ & H4 & _);
    [discriminate | reflexivity | |].
  - apply (bool_decide_unpack _). vm_compute. exact I.
  - exists a, o. exact (conj H1 (conj H2 (conj H3 H4))).
Defined.

(** An instance of X18: a parameter tagged EPSG:8807. *)
Lemma code_matches_exactly_witness :
  let i := Projection_parameter.mk "y0" d_zero (Authority.mk "EPSG" "8807") in
  code_matches i 8807 = true
  ∧ ∀ c', code_matches i 8807 = true → code_matches i c' = true → 8807 = c'.
Proof.
  intros i.
  destruct (code_matches_exactly i 8807) as [Hexact Hone].
  split; [|exact Hone]. apply Hexact. reflexivity.
Defined.

(** An instance of X19: a method code with white space before the number
    and a remark after it. *)
Lemma method_code_reads_decimal_witness :
  method_code
    (projected_over wgs84 (Authority.mk "epsg" " 9807 (Transverse Mercator)")
       utm32_parameters metre unnamed_axes) = 9807.
Proof.
  apply (method_code_reads_decimal _ " " 9807 " (Transverse Mercator)").
  - reflexivity.
  - reflexivity.
  - reflexivity.
  - reflexivity.
  - vm_compute. split; discriminate.
Defined.
